(** * Genetic-Algo-Soup-Generator: the recipe engine of [genetic-algo.py]

    A shallow embedding of the classes [Ingredient], [Recipe] and
    [RecipeManager] and the properties of their operations.

    Modelling conventions.
    - Amounts are Python floats in the source.  They are modelled as exact
      canonical rationals ([Qc]): every arithmetic step of the source is
      kept, its rounding to binary64 is not.  Where a result evaluates
      [normalize] on given amounts to show what the code does, the amounts
      are dyadic and every value the code forms on the way is a binary64
      number, so that the code computes the same.  Signed zeros, infinities
      and NaN have no counterpart.
    - Python exceptions are values of [exn]; a computation that may raise
      returns an [outcome].
    - The generators [random] and [numpy.random] are one stream of raw
      draws ([rng]); every sampling primitive consumes draws from it, so a
      statement quantified over all streams covers every random outcome.
    - A Python [set] of names is a [gset string]; [tuple(s)] is
      [elements s].  The unordered iteration of a set is covered by the
      quantification over draws.
    - [Ingredient] objects are never shared between two positions of a
      list or between two recipes (each is created once and appended once),
      so in-place updates are updates at a list index. *)

From Stdlib Require Import QArith Qcanon String Ascii DecimalString DecimalN Lia.
From stdpp Require Import base option list gmap sets strings numbers.

Set Warnings "-clear-no-such-hyp".

Open Scope string_scope.
Open Scope list_scope.
Open Scope Qc_scope.

(** ** Exceptions and outcomes *)

Inductive exn : Set :=
  | ZeroDivisionError
  | ValueError
  | IndexError.

Inductive outcome (A : Type) : Type :=
  | Return (a : A)
  | Raise (e : exn).
Arguments Return {A} a.
Arguments Raise {A} e.

Definition obind {A B} (m : outcome A) (f : A -> outcome B) : outcome B :=
  match m with
  | Return a => f a
  | Raise e => Raise e
  end.

Notation "x <-! m ; k" := (obind m (fun x => k))
  (at level 200, m at level 100, k at level 200, right associativity,
   format "'[v' x  <-!  m ; '/' k ']'").

(** ** The random source *)

Definition rng : Type := nat -> N.

Definition rng_head (g : rng) : N := g 0%nat.
Definition rng_tail (g : rng) : rng := fun n => g (S n).

(** A stream that replays a finite list of draws and then yields zeros. *)
Definition rng_of_list (l : list N) : rng := fun n => nth n l 0%N.

(** Computations that sample: they read the stream and return what is left. *)
Definition rand (A : Type) : Type := rng -> outcome (A * rng).

Definition rret {A} (a : A) : rand A := fun g => Return (a, g).
Definition rraise {A} (e : exn) : rand A := fun _ => Raise e.
Definition rbind {A B} (m : rand A) (f : A -> rand B) : rand B :=
  fun g => match m g with
           | Return (a, g') => f a g'
           | Raise e => Raise e
           end.
Definition rlift {A} (m : outcome A) : rand A :=
  fun g => match m with
           | Return a => Return (a, g)
           | Raise e => Raise e
           end.
Definition draw : rand N := fun g => Return (rng_head g, rng_tail g).

Notation "x <-? m ; k" := (rbind m (fun x => k))
  (at level 200, m at level 100, k at level 200, right associativity,
   format "'[v' x  <-?  m ; '/' k ']'").

(** [random.choice(seq)]: [IndexError] on an empty sequence. *)
Definition random_choice_index {A} (l : list A) : rand nat :=
  match l with
  | [] => rraise IndexError
  | _ => k <-? draw; rret (N.to_nat k mod length l)%nat
  end.

Definition random_choice {A} (l : list A) : rand A :=
  i <-? random_choice_index l;
  match l !! i with
  | Some x => rret x
  | None => rraise IndexError
  end.

(** [np.random.choice(a)] on a one-dimensional [a]: [ValueError] when empty. *)
Definition np_random_choice_index {A} (l : list A) : rand nat :=
  match l with
  | [] => rraise ValueError
  | _ => k <-? draw; rret (N.to_nat k mod length l)%nat
  end.

(** [np.random.choice(range(0, n))]. *)
Definition np_random_choice_range (n : nat) : rand nat :=
  match n with
  | O => rraise ValueError
  | _ => k <-? draw; rret (N.to_nat k mod n)%nat
  end.

(** [np.random.randint(low, high)]: [ValueError] when [low >= high]. *)
Definition np_random_randint (low high : nat) : rand nat :=
  if decide (high <= low)%nat then rraise ValueError
  else k <-? draw; rret (low + N.to_nat k mod (high - low))%nat.

(** [random.random()]: a multiple of 2^-53 in [0, 1). *)
Definition two53 : positive := 9007199254740992%positive.

Definition random_random : rand Qc :=
  k <-? draw; rret (Q2Qc (Z.of_N (k mod Npos two53) # two53)).

(** [random.uniform(a, b)] is [a + (b - a) * random()]. *)
Definition random_uniform (a b : Qc) : rand Qc :=
  u <-? random_random; rret (a + (b - a) * u).

(** ** Ingredient *)

Record Ingredient : Type := mkIngredient {
  name : string;
  amount : Qc;
}.

Definition set_amount (i : Ingredient) (a : Qc) : Ingredient :=
  {| name := name i; amount := a |}.
Definition get_amount (i : Ingredient) : Qc := amount i.
Definition get_name (i : Ingredient) : string := name i.
Definition set_name (i : Ingredient) (n : string) : Ingredient :=
  {| name := n; amount := amount i |}.

#[global] Instance Ingredient_eq_dec : EqDecision Ingredient.
Proof. solve_decision. Defined.

(** ** Recipe: the mutation operators and normalize

    A recipe is its name and its ordered list of ingredients. *)

Record Recipe : Type := mkRecipe {
  recipe_name : string;
  ingredients : list Ingredient;
}.

Definition with_ingredients (r : Recipe) (l : list Ingredient) : Recipe :=
  {| recipe_name := recipe_name r; ingredients := l |}.

#[global] Instance Recipe_eq_dec : EqDecision Recipe.
Proof. solve_decision. Defined.

Definition hundred : Qc := Q2Qc 100.
Definition hundredth : Qc := Q2Qc (1 # 100).

(** [change_amount]: [np.random.choice] on the ingredient list, then
    the amount is multiplied by [uniform(-.9, .9) + 1]. *)
Definition change_amount (r : Recipe) : rand Recipe :=
  i <-? np_random_choice_index (ingredients r);
  match ingredients r !! i with
  | None => rraise IndexError
  | Some ingredient =>
      u <-? random_uniform (Q2Qc (-9 # 10)) (Q2Qc (9 # 10));
      let new_amt := (u + Q2Qc 1) * get_amount ingredient in
      rret (with_ingredients r (<[i := set_amount ingredient new_amt]> (ingredients r)))
  end.

(** [add_ingredient]: the candidate names are computed and one of them is
    drawn into [new_ingredient], but the name that is used, [new_name], is
    drawn from the whole inspiring set; [new_ingredient] is then rebound to
    the appended object. *)
Definition add_ingredient (r : Recipe) (all_ingredients : gset string) : rand Recipe :=
  let curr_ingredient_strs := get_name <$> ingredients r in
  let new_possible_ingredients : gset string :=
    all_ingredients ∖ list_to_set curr_ingredient_strs in
  if decide (size new_possible_ingredients = 0)%nat then rret r
  else
    _new_ingredient <-? random_choice (elements new_possible_ingredients);
    new_name <-? random_choice (elements all_ingredients);
    new_amt <-? np_random_choice_range 100;
    let new_ingredient := mkIngredient new_name (Q2Qc (inject_Z (Z.of_nat new_amt))) in
    rret (with_ingredients r (ingredients r ++ [new_ingredient])).

(** [delete_ingredient]: [list.remove] compares by identity here (the class
    defines no [__eq__]), so it removes the selected position. *)
Definition delete_ingredient (r : Recipe) : rand Recipe :=
  i <-? random_choice_index (ingredients r);
  rret (with_ingredients r (delete i (ingredients r))).

(** [swap_ingredient]: renames the selected object in place.  The method
    also returns that object; [mutate] drops the value. *)
Definition swap_ingredient (r : Recipe) (all_ingredients : gset string) : rand Recipe :=
  i <-? random_choice_index (ingredients r);
  match ingredients r !! i with
  | None => rraise IndexError
  | Some ingredient =>
      let choices : gset string := all_ingredients ∖ {[ get_name ingredient ]} in
      new_name <-? random_choice (elements choices);
      rret (with_ingredients r (<[i := set_name ingredient new_name]> (ingredients r)))
  end.

(** [current_total]: the running sum of the first loop of [normalize]. *)
Definition current_total (l : list Ingredient) : Qc :=
  fold_left (fun acc ingredient => acc + get_amount ingredient) l (Q2Qc 0).

(** The second loop of [normalize] removes from the list it iterates.  A
    Python list iterator is an index into the live list: after a removal at
    the current index the following element moves into that index and the
    iterator steps past it.  [idx] is the iterator's index, [fuel] bounds
    the number of iterations (the list never grows, so its length is
    enough). *)
Fixpoint normalize_loop (fuel : nat) (sizing_factor : Qc) (idx : nat)
    (l : list Ingredient) : list Ingredient :=
  match fuel with
  | O => l
  | S fuel' =>
      match l !! idx with
      | None => l
      | Some ingredient =>
          let new_amt := get_amount ingredient * sizing_factor in
          if decide (new_amt < hundredth)
          then normalize_loop fuel' sizing_factor (S idx) (delete idx l)
          else normalize_loop fuel' sizing_factor (S idx)
                 (<[idx := set_amount ingredient new_amt]> l)
      end
  end.

(** [normalize] on the ingredient list.  The division raises on a zero total
    of Python numbers.  An amount drawn by [add_ingredient] is a numpy
    integer until it is rescaled, and a total that is a numpy scalar does not
    raise on a zero divisor (numpy warns and yields an infinity); such totals
    are outside this model.

    The total, the sizing factor and the scaled amounts are exact here and
    rounded in the code, so the tests [== 100], the zero divisor and [< .01]
    decide as the code's do when these values are binary64 numbers, and may
    decide otherwise when the code has rounded them.  The general results on
    [normalize] below state only what holds whichever way the tests decide
    (what is kept, in which order, with which sign, and which failure is
    possible). *)
Definition normalize_ingredients (l : list Ingredient) : outcome (list Ingredient) :=
  let total := current_total l in
  if decide (total = hundred) then Return l
  else if decide (total = Q2Qc 0) then Raise ZeroDivisionError
  else
    let sizing_factor := hundred / total in
    Return (normalize_loop (length l) sizing_factor 0 l).

Definition normalize (r : Recipe) : outcome Recipe :=
  l <-! normalize_ingredients (ingredients r);
  Return (with_ingredients r l).

Definition get_fitness (r : Recipe) : nat := length (ingredients r).

(** ** Text: [str.split(" oz ")], [float(...)] and [str(round(x, 2))] *)

Definition is_oz (c1 c2 c3 c4 : ascii) : bool :=
  Ascii.eqb c1 " " && Ascii.eqb c2 "o" && Ascii.eqb c3 "z" && Ascii.eqb c4 " ".

Definition cons_head (c : ascii) (parts : list string) : list string :=
  match parts with
  | [] => [String c EmptyString]
  | p :: ps => String c p :: ps
  end.

(** [line.split(" oz ")]: cut at every occurrence of the separator, scanning
    from the left; the result has at least one part. *)
Fixpoint split_oz (s : string) : list string :=
  match s with
  | EmptyString => [EmptyString]
  | String c1 tl =>
      match tl with
      | String c2 (String c3 (String c4 rest)) =>
          if is_oz c1 c2 c3 c4 then EmptyString :: split_oz rest
          else cons_head c1 (split_oz tl)
      | _ => cons_head c1 (split_oz tl)
      end
  end.

(** The characters [float] skips at both ends of its argument: tab, line
    feed, vertical tab, form feed, carriage return and the space. *)
Definition is_space (c : ascii) : bool :=
  let n := N_of_ascii c in
  ((9 <=? n) && (n <=? 13) || (n =? 32))%N.

Fixpoint lstrip (s : string) : string :=
  match s with
  | EmptyString => EmptyString
  | String c s' => if is_space c then lstrip s' else s
  end.

Fixpoint rstrip (s : string) : string :=
  match s with
  | EmptyString => EmptyString
  | String c s' =>
      match rstrip s' with
      | EmptyString => if is_space c then EmptyString else String c EmptyString
      | r => String c r
      end
  end.

Definition strip (s : string) : string := rstrip (lstrip s).

(** Cut [s] at the first character satisfying [p]. *)
Fixpoint cut_at (p : ascii -> bool) (s : string) : string * option string :=
  match s with
  | EmptyString => (EmptyString, None)
  | String c s' =>
      if p c then (EmptyString, Some s')
      else let '(a, b) := cut_at p s' in (String c a, b)
  end.

Definition is_dot (c : ascii) : bool := Ascii.eqb c ".".
Definition is_exp (c : ascii) : bool := Ascii.eqb c "e" || Ascii.eqb c "E".

(** A possibly empty run of decimal digits and its value. *)
Definition digits_value (s : string) : option N :=
  N.of_uint <$> NilEmpty.uint_of_string s.

(** An optional sign: [true] for a leading minus. *)
Definition cut_sign (s : string) : bool * string :=
  match s with
  | String c s' =>
      if Ascii.eqb c "-" then (true, s')
      else if Ascii.eqb c "+" then (false, s')
      else (false, s)
  | EmptyString => (false, s)
  end.

Definition pow10 (n : N) : Q := inject_Z (10 ^ Z.of_N n).

(** [digits [. digits]] or [. digits], with at least one digit. *)
Definition mantissa_value (s : string) : option Q :=
  let '(ip, fp) := cut_at is_dot s in
  let fp := default EmptyString fp in
  if (String.length ip + String.length fp =? 0)%nat then None
  else
    i ← digits_value ip;
    f ← digits_value fp;
    Some (inject_Z (Z.of_N i)
          + inject_Z (Z.of_N f) / pow10 (N.of_nat (String.length fp)))%Q.

(** [[+-] digits], the part after [e] or [E]. *)
Definition exponent_value (s : string) : option Z :=
  let '(neg, ds) := cut_sign s in
  if (String.length ds =? 0)%nat then None
  else
    e ← digits_value ds;
    Some (if neg then (- Z.of_N e)%Z else Z.of_N e).

(** [float(s)] on decimal literals in ASCII text: surrounding whitespace, a
    sign, a mantissa and an optional exponent.  The spellings of infinities
    and NaN, underscores between digits and digits outside ASCII are not
    covered (they are rejected here, and accepted by Python); a literal too
    large for binary64 is an infinity in Python and its exact value here.
    The results below are stated for lines whose amount this function
    accepts, or for any outcome of it. *)
Definition float (s : string) : outcome Qc :=
  let '(neg, body) := cut_sign (strip s) in
  let '(mant, ex) := cut_at is_exp body in
  let value :=
    m ← mantissa_value mant;
    e ← match ex with
        | None => Some 0%Z
        | Some es => exponent_value es
        end;
    Some (if (e <? 0)%Z then (m / pow10 (Z.to_N (- e)))%Q
          else (m * pow10 (Z.to_N e))%Q) in
  match value with
  | Some v => Return (Q2Qc (if neg then (- v)%Q else v))
  | None => Raise ValueError
  end.

(** Round half to even, the rule of Python's [round]. *)
Definition round_half_even (q : Q) : Z :=
  let a := Qnum q in
  let b := Zpos (Qden q) in
  let fl := (a / b)%Z in
  let r := (a mod b)%Z in
  match (2 * r ?= b)%Z with
  | Lt => fl
  | Gt => (fl + 1)%Z
  | Eq => if Z.even fl then fl else (fl + 1)%Z
  end.

(** [round(x, 2)] counted in hundredths, and as a number. *)
Definition hundredths (x : Qc) : Z := round_half_even (this x * 100)%Q.
Definition round2 (x : Qc) : Qc := Q2Qc (hundredths x # 100).

Definition digits_of (n : N) : string := NilEmpty.string_of_uint (N.to_uint n).

(** [str(round(x, 2))]: the sign, the integer part, a point and one or two
    fraction digits ([frac_digits]) without a trailing zero.  A negative [x] that rounds to
    zero prints as minus zero.  From 10^16 on Python prints the digits of
    the binary64 value in exponent notation; here the digits stay
    positional. *)
Definition frac_digits (fp : N) : string :=
  if (fp mod 10 =? 0)%N then digits_of (fp / 10)
  else digits_of (fp / 10) +:+ digits_of (fp mod 10).

Definition str_round2 (x : Qc) : string :=
  let n := hundredths x in
  let m := Z.to_N (Z.abs n) in
  let ip := (m / 100)%N in
  let fp := (m mod 100)%N in
  (if decide (x < Q2Qc 0) then "-" else "")
  +:+ digits_of ip +:+ "." +:+ frac_digits fp.

(** [Ingredient.__str__].  (An amount that is still the numpy integer drawn
    by [add_ingredient] prints without a fraction part; it reads back as the
    same number.) *)
Definition Ingredient_str (i : Ingredient) : string :=
  str_round2 (amount i) +:+ " oz " +:+ name i.

(** ** Recipe construction *)

(** [recipe_dic]: a dict keeps its keys in insertion order and an
    assignment to a present key keeps the key's position. *)
Definition dict : Type := list (string * Qc).

Fixpoint dict_get (d : dict) (k : string) : option Qc :=
  match d with
  | [] => None
  | (k', v) :: d' => if decide (k' = k) then Some v else dict_get d' k
  end.

Fixpoint dict_set (d : dict) (k : string) (v : Qc) : dict :=
  match d with
  | [] => [(k, v)]
  | (k', v') :: d' =>
      if decide (k' = k) then (k', v) :: d' else (k', v') :: dict_set d' k v
  end.

(** One line: [information = line.split(" oz ")], then the amount and the
    name, in the order the source evaluates them. *)
Definition parse_line (line : string) : outcome (Qc * string) :=
  let information := split_oz line in
  amt <-! match information !! 0%nat with
          | Some a => float a
          | None => Raise IndexError
          end;
  name <-! match information !! 1%nat with
           | Some n => Return n
           | None => Raise IndexError
           end;
  Return (amt, name).

Fixpoint fill_dict (recipe_strs : list string) (recipe_dic : dict) : outcome dict :=
  match recipe_strs with
  | [] => Return recipe_dic
  | line :: rest =>
      entry <-! parse_line line;
      let '(amt, name) := entry in
      match dict_get recipe_dic name with
      | None => fill_dict rest (dict_set recipe_dic name amt)
      | Some curr_amt => fill_dict rest (dict_set recipe_dic name (curr_amt + amt))
      end
  end.

Definition make_ingredient_objects (r : Recipe) (recipe_strs : list string)
    : outcome Recipe :=
  recipe_dic <-! fill_dict recipe_strs [];
  Return (with_ingredients r
            (ingredients r ++ ((fun e => mkIngredient e.1 e.2) <$> recipe_dic))).

(** [str(n)] for a non-negative integer. *)
Definition str_nat (n : nat) : string := digits_of (N.of_nat n).

(** [Recipe.__init__]. *)
Definition Recipe_init (num_new_recipes : nat) (recipe_strs : list string)
    : outcome Recipe :=
  make_ingredient_objects
    {| recipe_name := "recipe_" +:+ str_nat num_new_recipes; ingredients := [] |}
    recipe_strs.

Definition get_ingredient_strings (r : Recipe) : list string :=
  Ingredient_str <$> ingredients r.

(** [mutate]: [np.random.choice([True, False], p=[0.4, 0.6])] compares one
    uniform sample with the cumulated weights. *)
Definition mutate (r : Recipe) (all_ingredients : gset string) : rand Recipe :=
  u <-? random_random;
  if decide (u < Q2Qc (4 # 10)) then
    mutation <-? np_random_randint 0 4;
    r' <-? match mutation with
           | 0%nat => change_amount r
           | 1%nat => add_ingredient r all_ingredients
           | 2%nat => delete_ingredient r
           | 3%nat => swap_ingredient r all_ingredients
           | _ => rret r
           end;
    rlift (normalize r')
  else rret r.

(** ** RecipeManager *)

Record RecipeManager : Type := mkRecipeManager {
  recipes : list Recipe;
  num_new_recipes : nat;
  all_ingredients : gset string;
}.

Definition with_recipes (m : RecipeManager) (l : list Recipe) : RecipeManager :=
  {| recipes := l; num_new_recipes := num_new_recipes m;
     all_ingredients := all_ingredients m |}.

(** [get_unique_ingredients]: the names of every recipe are added to the
    inspiring set. *)
Definition get_unique_ingredients (m : RecipeManager) : RecipeManager :=
  {| recipes := recipes m; num_new_recipes := num_new_recipes m;
     all_ingredients :=
       foldl (fun acc recipe =>
                foldl (fun acc' ingredient => acc' ∪ {[ get_name ingredient ]})
                      acc (ingredients recipe))
             (all_ingredients m) (recipes m) |}.

(** The lines handed to the offspring's constructor:
    [recipe1_strs[:pivot] + recipe2_strs[pivot:]]. *)
Definition cross_lines (recipe1 recipe2 : Recipe) (pivot : nat) : list string :=
  take pivot (get_ingredient_strings recipe1)
  ++ drop pivot (get_ingredient_strings recipe2).

(** [crossover] returns the offspring; the manager's counter is advanced. *)
Definition crossover (m : RecipeManager) (recipe1 recipe2 : Recipe)
    : rand (Recipe * RecipeManager) :=
  let shortest_recipe_len := (get_fitness recipe1 `min` get_fitness recipe2)%nat in
  pivot <-? np_random_randint 0 shortest_recipe_len;
  let cross := cross_lines recipe1 recipe2 pivot in
  newRecipe <-? rlift (Recipe_init (num_new_recipes m) cross);
  let m' := {| recipes := recipes m; num_new_recipes := S (num_new_recipes m);
               all_ingredients := all_ingredients m |} in
  newRecipe' <-? mutate newRecipe (all_ingredients m);
  rret (newRecipe', m').

(** [sorted(recipes, key=...)]: a stable sort, ascending in the key. *)
Fixpoint insert_by {A} (key : A -> nat) (x : A) (l : list A) : list A :=
  match l with
  | [] => [x]
  | y :: l' =>
      if decide (key x <= key y)%nat then x :: y :: l'
      else y :: insert_by key x l'
  end.

Fixpoint sorted {A} (key : A -> nat) (l : list A) : list A :=
  match l with
  | [] => []
  | x :: l' => insert_by key x (sorted key l')
  end.

(** [fittest_half]: [int(len(recipes)/2)] is the quotient of the length by
    two (the true division is exact below 2^53). *)
Definition fittest_half (rs : list Recipe) : list Recipe :=
  let sorted_recipes := sorted get_fitness rs in
  drop (length rs / 2)%nat sorted_recipes.

(** The cumulated weights divided by their total, and the position a
    uniform sample falls in ([searchsorted(x, side='right')]). *)
Fixpoint cumsum (acc : Qc) (p : list Qc) : list Qc :=
  match p with
  | [] => []
  | x :: p' => (acc + x) :: cumsum (acc + x) p'
  end.

Definition searchsorted_right (cdf : list Qc) (x : Qc) : nat :=
  length (filter (fun c => c <= x) cdf).

Definition weighted_index (p : list Qc) (u : Qc) : nat :=
  let cdf := cumsum (Q2Qc 0) p in
  let total := List.last cdf (Q2Qc 1) in
  searchsorted_right ((fun c => c / total) <$> cdf) u.

Definition lookup_or_raise {A} (l : list A) (i : nat) : rand A :=
  match l !! i with
  | Some x => rret x
  | None => rraise IndexError
  end.

(** [np.random.choice(a, p=p, size=2, replace=False)], after numpy's legacy
    sampler: the argument checks, each failing with [ValueError], then two
    samples; when both fall on the same element its weight is cleared and
    one more sample is taken. *)
Definition np_random_choice_pair {A} (a : list A) (p : list Qc) : rand (A * A) :=
  if decide (length a = 0)%nat then rraise ValueError
  else if decide (length p ≠ length a) then rraise ValueError
  else if decide (Exists (fun x => x < Q2Qc 0) p) then rraise ValueError
  else if decide (foldl Qcplus (Q2Qc 0) p ≠ Q2Qc 1) then rraise ValueError
  else if decide (length a < 2)%nat then rraise ValueError
  else if decide (length (filter (fun x => (Q2Qc 0 < x)%Qc) p) < 2)%nat
       then rraise ValueError
  else
    u1 <-? random_random;
    u2 <-? random_random;
    let i1 := weighted_index p u1 in
    let i2 := weighted_index p u2 in
    x1 <-? lookup_or_raise a i1;
    if decide (i1 = i2) then
      u3 <-? random_random;
      x2 <-? lookup_or_raise a (weighted_index (<[i1 := Q2Qc 0]> p) u3);
      rret (x1, x2)
    else
      x2 <-? lookup_or_raise a i2;
      rret (x1, x2).

Definition Qc_of_nat (n : nat) : Qc := Q2Qc (inject_Z (Z.of_nat n)).

(** [fit / sum_fit] on integers: [ZeroDivisionError] when [sum_fit] is 0. *)
Definition true_div (fit sum_fit : nat) : outcome Qc :=
  if decide (sum_fit = 0)%nat then Raise ZeroDivisionError
  else Return (Qc_of_nat fit / Qc_of_nat sum_fit).

Fixpoint probabilities (fitnesses : list nat) (sum_fit : nat) : outcome (list Qc) :=
  match fitnesses with
  | [] => Return []
  | fit :: rest =>
      x <-! true_div fit sum_fit;
      xs <-! probabilities rest sum_fit;
      Return (x :: xs)
  end.

(** [sum(fitnesses)]. *)
Definition sum_nat (l : list nat) : nat := foldl Nat.add 0%nat l.

(** The pair selection of [genetic_algo]: the fitnesses, their sum, the
    probabilities and the weighted draw of two parents. *)
Definition select_pair (rs : list Recipe) : rand (Recipe * Recipe) :=
  let fitnesses := get_fitness <$> rs in
  let sum_fit := sum_nat fitnesses in
  p <-? rlift (probabilities fitnesses sum_fit);
  np_random_choice_pair rs p.

(** The loop of [genetic_algo]: [n] iterations are left. *)
Fixpoint offspring_loop (n : nat) (m : RecipeManager) (new_recipes : list Recipe)
    : rand (list Recipe * RecipeManager) :=
  match n with
  | O => rret (new_recipes, m)
  | S n' =>
      parents <-? select_pair (recipes m);
      born <-? crossover m parents.1 parents.2;
      offspring_loop n' born.2 (new_recipes ++ [born.1])
  end.

Definition genetic_algo (m : RecipeManager) : rand RecipeManager :=
  res <-? offspring_loop (length (recipes m)) m [];
  rret (with_recipes res.2 (fittest_half (recipes res.2) ++ fittest_half res.1)).

Fixpoint run_genetic_algo (generations : nat) (m : RecipeManager) : rand RecipeManager :=
  match generations with
  | O => rret m
  | S g => m' <-? genetic_algo m; run_genetic_algo g m'
  end.

(** [RecipeManager.__init__]. *)
Definition RecipeManager_init : RecipeManager :=
  {| recipes := []; num_new_recipes := 0; all_ingredients := ∅ |}.

(** [parse_files]: the files of the input directory are given by the lists
    of their lines, in the order [os.listdir] yields them; each becomes a
    recipe numbered by the counter.  Failures of the file system are not
    modelled. *)
Fixpoint parse_files (files : list (list string)) (m : RecipeManager)
    : outcome RecipeManager :=
  match files with
  | [] => Return m
  | recipe_str :: rest =>
      recipe <-! Recipe_init (num_new_recipes m) recipe_str;
      parse_files rest
        {| recipes := recipes m ++ [recipe];
           num_new_recipes := S (num_new_recipes m);
           all_ingredients := all_ingredients m |}
  end.

Definition newline : string := String (ascii_of_nat 10) EmptyString.

(** The file written for [top_5[i]]: its path and its content, the header
    line followed by the ingredient strings ([writelines] puts nothing
    between them). *)
Definition rank_file (i : nat) (recipe : Recipe) : string * string :=
  ("fittest recipes/rank_" +:+ str_nat (5 - i),
   recipe_name recipe +:+ " (" +:+ str_nat (get_fitness recipe) +:+ " ingredients)"
   +:+ newline +:+ String.concat "" (get_ingredient_strings recipe)).

(** The loop of [write_fittest_recipes] over the indices [idxs]: the files
    written so far, and how the loop ends ([top_5[i]] raises [IndexError]
    past the end). *)
Fixpoint write_ranks (idxs : list nat) (top_5 : list Recipe)
    (written : list (string * string)) : list (string * string) * outcome unit :=
  match idxs with
  | [] => (written, Return tt)
  | i :: rest =>
      match top_5 !! i with
      | None => (written, Raise IndexError)
      | Some recipe => write_ranks rest top_5 (written ++ [rank_file i recipe])
      end
  end.

(** [write_fittest_recipes]: [sorted_recipes[-5:]] is the last five
    recipes, or all of them when there are fewer. *)
Definition write_fittest_recipes (m : RecipeManager)
    : list (string * string) * outcome unit :=
  let sorted_recipes := sorted get_fitness (recipes m) in
  let top_5 := drop (length sorted_recipes - 5) sorted_recipes in
  write_ranks (seq 0 5) top_5 [].

(** [main], from the parsed number of generations on: the files written and
    how the run ends.  (The prompt and the progress messages are left out;
    a negative number of generations runs none.) *)
Definition main (generations : nat) (files : list (list string)) (g : rng)
    : list (string * string) * outcome unit :=
  match parse_files files RecipeManager_init with
  | Raise e => ([], Raise e)
  | Return manager =>
      match run_genetic_algo generations (get_unique_ingredients manager) g with
      | Raise e => ([], Raise e)
      | Return (manager', _) => write_fittest_recipes manager'
      end
  end.

(** The value of a sampling computation, without the remaining stream. *)
Definition value_of {A} (o : outcome (A * rng)) : outcome A :=
  match o with
  | Return (a, _) => Return a
  | Raise e => Raise e
  end.

#[global] Instance exn_eq_dec : EqDecision exn.
Proof. solve_decision. Defined.

#[global] Instance outcome_eq_dec {A} `{EqDecision A} : EqDecision (outcome A).
Proof. solve_decision. Defined.

(** ** Vocabulary of the statements *)

(** Ascending in the key: an earlier element never has the larger key. *)
Definition ascending {A} (key : A -> nat) (l : list A) : Prop :=
  forall i j a b, (i <= j)%nat -> l !! i = Some a -> l !! j = Some b ->
                  (key a <= key b)%nat.

(** The position [random.choice] selects in a non-empty list. *)
Definition selected (g : rng) (l : list Ingredient) : nat :=
  (N.to_nat (rng_head g) mod length l)%nat.

(** An ingredient with its amount multiplied by [f]. *)
Definition scale (f : Qc) (i : Ingredient) : Ingredient :=
  set_amount i (get_amount i * f).

(** What the removing loop of [normalize] computes, by recursion on the
    list: after a removal the next ingredient is stepped over and stays as
    it is. *)
Fixpoint scale_skip (f : Qc) (l : list Ingredient) : list Ingredient :=
  match l with
  | [] => []
  | i :: rest =>
      if decide (get_amount i * f < hundredth) then
        match rest with
        | [] => []
        | next :: rest' => next :: scale_skip f rest'
        end
      else scale f i :: scale_skip f rest
  end.

Definition sum_amounts (l : list Ingredient) : Qc :=
  foldr (fun i s => get_amount i + s) (Q2Qc 0) l.

(** One parsed line entered into the dict, as the body of the loop of
    [make_ingredient_objects] does. *)
Definition dict_add (d : dict) (e : Qc * string) : dict :=
  match dict_get d e.2 with
  | None => dict_set d e.2 e.1
  | Some curr_amt => dict_set d e.2 (curr_amt + e.1)
  end.

(** The sum of the amounts of the lines that carry the name [nm]. *)
Definition sum_of (nm : string) (entries : list (Qc * string)) : Qc :=
  foldr (fun e s => if decide (e.2 = nm) then e.1 + s else s) (Q2Qc 0) entries.

Definition is_digit (c : ascii) : bool :=
  let n := N_of_ascii c in ((48 <=? n) && (n <=? 57))%N.

Fixpoint all_chars (p : ascii -> bool) (s : string) : bool :=
  match s with
  | EmptyString => true
  | String c s' => p c && all_chars p s'
  end.

(** The fraction digits of [fp] hundredths read back as [fp / 100]. *)
Definition frac_ok (fp : N) : bool :=
  match digits_value (frac_digits fp) with
  | Some f =>
      all_chars is_digit (frac_digits fp)
      && negb (String.length (frac_digits fp) =? 0)%nat
      && Qeq_bool (inject_Z (Z.of_N f)
                   / pow10 (N.of_nat (String.length (frac_digits fp))))
                  (Z.of_N fp # 100)
  | None => false
  end.

(** The string begins with the separator. *)
Definition starts_with_sep (s : string) : bool :=
  match s with
  | String c1 (String c2 (String c3 (String c4 _))) => is_oz c1 c2 c3 c4
  | _ => false
  end.

(** What follows a leading separator. *)
Definition after_sep (s : string) : string :=
  match s with
  | String _ (String _ (String _ (String _ rest))) => rest
  | _ => s
  end.

(** A name without the separator in it.  Every name the program handles is
    the second part of a split line. *)
Definition sep_free (nm : string) : Prop := split_oz nm = [nm].

#[global] Instance sep_free_dec nm : Decision (sep_free nm).
Proof. unfold sep_free. apply _. Defined.

(** The ingredients the offspring's lines are printed from. *)
Definition crossed (recipe1 recipe2 : Recipe) (pivot : nat) : list Ingredient :=
  take pivot (ingredients recipe1) ++ drop pivot (ingredients recipe2).

(** What a printed ingredient reads back as. *)
Definition rounded_entry (i : Ingredient) : Qc * string :=
  (round2 (get_amount i), get_name i).

#[global] Instance RecipeManager_eq_dec : EqDecision RecipeManager.
Proof. solve_decision. Defined.

(** [" oz ".join(parts)]. *)
Fixpoint join_oz (parts : list string) : string :=
  match parts with
  | [] => EmptyString
  | p :: ps =>
      match ps with
      | [] => p
      | _ => p +:+ " oz " +:+ join_oz ps
      end
  end.

(** The distinct elements of a list, in the order of their first
    occurrence. *)
Fixpoint first_occurrences (l : list string) : list string :=
  match l with
  | [] => []
  | x :: l' => x :: filter (fun y => y <> x) (first_occurrences l')
  end.

(** The sum of a list of weights. *)
Definition sumr (p : list Qc) : Qc := foldr Qcplus (Q2Qc 0) p.

(** The uniform sample [mutate] compares with 0.4. *)
Definition mutate_sample (g : rng) : Qc :=
  Q2Qc (Z.of_N (rng_head g mod Npos two53) # two53).

(** The binary64 numbers among the rationals: zero, and an integer of at
    most 53 bits times a power of two, from 2^-1074 up to below 2^1024.  An
    IEEE 754 operation whose exact result is such a number returns it. *)
Definition binary64 (q : Qc) : bool :=
  let n := Z.abs (Qnum (this q)) in
  let d := Qden (this q) in
  let k := Z.log2 (Zpos d) in
  let b := (Z.log2 n + 1)%Z in
  (n =? 0)%Z
  || ((2 ^ k =? Zpos d)%Z
      && (((b <=? 53)%Z && (k <=? 1074)%Z)
          || ((k =? 0)%Z && (b <=? 1024)%Z && (n mod 2 ^ (b - 53) =? 0)%Z))).

(** Every value [normalize] forms on a list whose total is neither 100 nor
    zero: the amounts, the running totals, the sizing factor and the scaled
    amounts. *)
Definition normalize_values (l : list Ingredient) : list Qc :=
  let sizing_factor := hundred / current_total l in
  (get_amount <$> l)
  ++ ((fun k => current_total (take k l)) <$> seq 1 (length l))
  ++ [sizing_factor]
  ++ ((fun ingredient => get_amount ingredient * sizing_factor) <$> l).

(** ** Example data *)

Definition ingr (n : string) (q : Q) : Ingredient := mkIngredient n (Q2Qc q).

(** A recipe of [k] ingredients, for statements that only look at fitness. *)
Definition sized (nm : string) (k : nat) : Recipe :=
  {| recipe_name := nm; ingredients := replicate k (ingr "Gin" 1) |}.

Definition gin_recipe : Recipe :=
  {| recipe_name := "recipe_0"; ingredients := [ingr "Gin" 100] |}.
Definition gin_lime : gset string := {[ "Gin"; "Lime" ]}.

Definition gin_rum_recipe : Recipe :=
  {| recipe_name := "recipe_1"; ingredients := [ingr "Gin" 60; ingr "Rum" 40] |}.

(** 0.25 of Rum, 0.25 of Lime and 3199.5 of Gin, as a seed file and as the
    recipe numbered [n].  The total is 3200, the sizing factor 1/32, and
    every sum, quotient and product [normalize] forms on these amounts is a
    binary64 number. *)
Definition rum_lime_gin_lines : list string :=
  ["0.25 oz Rum"; "0.25 oz Lime"; "3199.5 oz Gin"].

Definition rum_lime_gin (n : nat) : Recipe :=
  {| recipe_name := "recipe_" +:+ str_nat n;
     ingredients := [ingr "Rum" (1 # 4); ingr "Lime" (1 # 4); ingr "Gin" (6399 # 2)] |}.

Definition rum_lime_gin_seeded : RecipeManager :=
  {| recipes := [rum_lime_gin 0; rum_lime_gin 1]; num_new_recipes := 2;
     all_ingredients := {[ "Gin"; "Lime"; "Rum" ]} |}.

(** 199.984375 of Gin and 0.015625 of Rum: the total is 200. *)
Definition gin_rum_200 : Recipe :=
  {| recipe_name := "recipe_3";
     ingredients := [ingr "Gin" (12799 # 64); ingr "Rum" (1 # 64)] |}.

Definition thirds_a : Recipe :=
  {| recipe_name := "recipe_0"; ingredients := [ingr "Gin" (1 # 3); ingr "Lime" 1] |}.
Definition thirds_b : Recipe :=
  {| recipe_name := "recipe_1"; ingredients := [ingr "Rum" 1; ingr "Gin" (1 # 3)] |}.

Definition three_names : RecipeManager :=
  {| recipes := [thirds_a; thirds_b]; num_new_recipes := 2;
     all_ingredients := {[ "Gin"; "Lime"; "Rum" ]} |}.

(** Concrete equalities between values that hold rationals are decided:
    two equal [Qc] may carry different canonicity proofs. *)
Ltac decide_eq := refine (bool_decide_unpack _ _); vm_compute; exact I.

(** * Properties *)

(** ** Sampling primitives *)

Lemma random_choice_index_nonempty {A} (l : list A) g :
  l <> [] ->
  random_choice_index l g
  = Return ((N.to_nat (rng_head g) mod length l)%nat, rng_tail g).
Proof. destruct l; [done|]. reflexivity. Qed.

Lemma random_choice_index_empty {A} g :
  random_choice_index (@nil A) g = Raise IndexError.
Proof. reflexivity. Qed.

Lemma mod_length_lt {A} (l : list A) (k : nat) :
  l <> [] -> (k mod length l < length l)%nat.
Proof. intros H. apply Nat.mod_upper_bound. destruct l; [done|simpl; lia]. Qed.

Lemma random_choice_nonempty {A} (l : list A) g :
  l <> [] ->
  exists x, l !! (N.to_nat (rng_head g) mod length l)%nat = Some x
            /\ random_choice l g = Return (x, rng_tail g).
Proof.
  intros Hl. unfold random_choice, rbind.
  rewrite random_choice_index_nonempty by done.
  destruct (lookup_lt_is_Some_2 l (N.to_nat (rng_head g) mod length l)%nat) as [x Hx].
  { by apply mod_length_lt. }
  exists x. by rewrite Hx.
Qed.

(** ** Empty recipes *)

(** The three operators sample from the ingredient list before anything
    else, and sampling from an empty list raises. *)
Lemma operators_on_empty_list (nm : string) (all : gset string) (g : rng) :
  change_amount {| recipe_name := nm; ingredients := [] |} g = Raise ValueError
  /\ delete_ingredient {| recipe_name := nm; ingredients := [] |} g = Raise IndexError
  /\ swap_ingredient {| recipe_name := nm; ingredients := [] |} all g = Raise IndexError.
Proof. repeat split. Qed.

(** A constructor that returns on at least one line leaves at least one
    ingredient: every line puts or keeps a key in [recipe_dic]. *)
Lemma dict_set_nonempty (d : dict) (k : string) (v : Qc) : dict_set d k v <> [].
Proof. destruct d as [|[k' v'] d]; simpl; [done|]. by destruct (decide _). Qed.

Lemma fill_dict_nonempty (lines : list string) : forall d d',
  fill_dict lines d = Return d' -> lines <> [] \/ d <> [] -> d' <> [].
Proof.
  induction lines as [|line rest IH]; simpl; intros d d' H Hne.
  - simplify_eq. by destruct Hne.
  - destruct (parse_line line) as [[amt nm]|]; [|done]. simpl in H.
    destruct (dict_get d nm);
      apply IH in H; try done; right; apply dict_set_nonempty.
Qed.

Lemma Recipe_init_nonempty (n : nat) (lines : list string) (r : Recipe) :
  Recipe_init n lines = Return r -> lines <> [] -> ingredients r <> [].
Proof.
  unfold Recipe_init, make_ingredient_objects. intros H Hne.
  destruct (fill_dict lines []) as [d|] eqn:Hd; [|done]. simpl in H. simplify_eq.
  simpl. apply fill_dict_nonempty in Hd; [|by left].
  by destruct d.
Qed.

Lemma np_random_randint_inv (low high pivot : nat) (g g' : rng) :
  np_random_randint low high g = Return (pivot, g') -> (low <= pivot < high)%nat.
Proof.
  unfold np_random_randint. destruct (decide _) as [|Hlt]; [done|].
  intros [= <- _].
  pose proof (Nat.mod_upper_bound (N.to_nat (rng_head g)) (high - low)). lia.
Qed.

Lemma cross_lines_length (r1 r2 : Recipe) (pivot : nat) :
  (pivot <= get_fitness r1 `min` get_fitness r2)%nat ->
  length (cross_lines r1 r2 pivot) = get_fitness r2.
Proof.
  unfold cross_lines, get_ingredient_strings, get_fitness. intros H.
  rewrite length_app, length_take, length_drop, !length_fmap. lia.
Qed.

(** C3. The three operators have no guard: on a recipe without ingredients
    [change_amount] raises the [ValueError] of [np.random.choice], and
    [delete_ingredient] and [swap_ingredient] raise the [IndexError] of
    [random.choice], for every inspiring set and every random stream.  Their
    caller does not hand them such a recipe: [mutate] is applied by
    [crossover] to the offspring it has just constructed, and whenever the
    pivot is drawn and the constructor returns, that offspring has an
    ingredient. *)
Theorem empty_recipe_operators_unguarded (r : Recipe) (all : gset string) (g : rng) :
  (ingredients r = [] ->
   change_amount r g = Raise ValueError
   /\ delete_ingredient r g = Raise IndexError
   /\ swap_ingredient r all g = Raise IndexError)
  /\ (forall (m : RecipeManager) (recipe1 recipe2 : Recipe) (pivot : nat) (g' : rng),
        np_random_randint 0 (get_fitness recipe1 `min` get_fitness recipe2) g
        = Return (pivot, g') ->
        Recipe_init (num_new_recipes m) (cross_lines recipe1 recipe2 pivot) = Return r ->
        ingredients r <> []).
Proof.
  split.
  - intros Hl. destruct r as [nm l]. simpl in Hl. subst l.
    apply operators_on_empty_list.
  - intros m recipe1 recipe2 pivot g' Hp Hr.
    apply np_random_randint_inv in Hp.
    apply (Recipe_init_nonempty _ _ _ Hr).
    intros Hnil. apply (f_equal length) in Hnil.
    rewrite cross_lines_length in Hnil by lia. simpl in Hnil. lia.
Qed.

Lemma empty_recipe_operators_unguarded_witness :
  (change_amount {| recipe_name := "recipe_0"; ingredients := [] |} (rng_of_list [1%N])
   = Raise ValueError
   /\ delete_ingredient {| recipe_name := "recipe_0"; ingredients := [] |}
        (rng_of_list [1%N]) = Raise IndexError
   /\ swap_ingredient {| recipe_name := "recipe_0"; ingredients := [] |} gin_lime
        (rng_of_list [1%N]) = Raise IndexError)
  /\ exists r, Recipe_init 2 (cross_lines gin_rum_recipe gin_rum_recipe 1) = Return r
               /\ ingredients r <> [].
Proof.
  split.
  - apply (empty_recipe_operators_unguarded
             {| recipe_name := "recipe_0"; ingredients := [] |} gin_lime (rng_of_list [1%N])).
    reflexivity.
  - destruct (Recipe_init 2 (cross_lines gin_rum_recipe gin_rum_recipe 1))
      as [r|e] eqn:Hr.
    + exists r. split; [done|].
      apply (proj2 (empty_recipe_operators_unguarded r gin_lime (rng_of_list [1%N]))
               {| recipes := []; num_new_recipes := 2; all_ingredients := gin_lime |}
               gin_rum_recipe gin_rum_recipe 1%nat (rng_tail (rng_of_list [1%N]))).
      * reflexivity.
      * exact Hr.
    + vm_compute in Hr. discriminate Hr.
Defined.

(** On the empty recipe each operator raises; none returns the recipe
    unchanged. *)
Lemma empty_recipe_operators_raise_not_return :
  change_amount {| recipe_name := "recipe_0"; ingredients := [] |} (rng_of_list [])
  = Raise ValueError
  /\ delete_ingredient {| recipe_name := "recipe_0"; ingredients := [] |} (rng_of_list [])
     = Raise IndexError
  /\ swap_ingredient {| recipe_name := "recipe_0"; ingredients := [] |} gin_lime
       (rng_of_list []) = Raise IndexError.
Proof. repeat split. Qed.

(** The guard of [add_ingredient]: with no candidate name it returns the
    recipe unchanged and consumes no draw. *)
Lemma add_ingredient_no_candidate (r : Recipe) (all : gset string) (g : rng) :
  all ∖ list_to_set (get_name <$> ingredients r) = ∅ ->
  add_ingredient r all g = Return (r, g).
Proof.
  intros H. unfold add_ingredient. rewrite H.
  destruct (decide _) as [|Hn]; [done|]. by rewrite size_empty in Hn.
Qed.

(** ** normalize on a zero total *)

Lemma normalize_zero_total (r : Recipe) :
  current_total (ingredients r) = Q2Qc 0 -> normalize r = Raise ZeroDivisionError.
Proof.
  intros H. unfold normalize, normalize_ingredients. rewrite H.
  destruct (decide _) as [E|_]; [discriminate E|].
  by destruct (decide _).
Qed.

(** C2. [normalize] on a zero total divides by zero: the empty recipe and the
    recipe built from the line "0 oz Gin" both end in [ZeroDivisionError]. *)
Theorem normalize_zero_total_raises (nm : string) :
  normalize {| recipe_name := nm; ingredients := [] |} = Raise ZeroDivisionError
  /\ (r <-! Recipe_init 0 ["0 oz Gin"]; normalize r) = Raise ZeroDivisionError.
Proof. split; reflexivity. Qed.

(** ** add_ingredient *)

(** C1. With the recipe [Gin 100], the inspiring set {Gin, Lime} and the
    draws 0, 0, 7, [add_ingredient] appends a second ingredient named Gin:
    the name is drawn from the whole inspiring set, not from the candidates. *)
Theorem add_ingredient_duplicates_name :
  value_of (add_ingredient gin_recipe gin_lime (rng_of_list [0; 0; 7]%N))
  = Return {| recipe_name := "recipe_0";
              ingredients := [ingr "Gin" 100; ingr "Gin" 7] |}
  /\ ~ NoDup (get_name <$> [ingr "Gin" 100; ingr "Gin" 7]).
Proof.
  split; [decide_eq|].
  intros H. apply NoDup_cons_1_1 in H. apply H. by left.
Qed.

(** Whenever a guard-passing recipe holds a name of the inspiring set, some
    random outcome appends that name again. *)
Lemma add_ingredient_can_duplicate (r : Recipe) (all : gset string) (nm : string) :
  nm ∈ get_name <$> ingredients r -> nm ∈ all ->
  all ∖ list_to_set (get_name <$> ingredients r) <> ∅ ->
  exists g r', value_of (add_ingredient r all g) = Return r'
               /\ ~ NoDup (get_name <$> ingredients r').
Proof.
  intros Hin Hall Hne.
  apply elem_of_elements, list_elem_of_lookup in Hall as [i Hi].
  pose proof (lookup_lt_Some _ _ _ Hi) as Hlt.
  set (g := rng_of_list [0%N; N.of_nat i; 0%N]).
  exists g, (with_ingredients r (ingredients r ++ [mkIngredient nm (Q2Qc 0)])).
  split.
  - unfold add_ingredient. destruct (decide _) as [Hz|_].
    { apply size_empty_inv in Hz. by apply leibniz_equiv in Hz. }
    unfold rbind at 1.
    destruct (random_choice_nonempty (elements (all ∖ list_to_set (get_name <$> ingredients r))) g)
      as (x & _ & ->).
    { intros E. apply elements_empty_inv in E. by apply leibniz_equiv in E. }
    unfold rbind at 1.
    destruct (random_choice_nonempty (elements all) (rng_tail g)) as (y & Hy & ->).
    { intros E. rewrite E in Hlt. simpl in Hlt. lia. }
    assert (y = nm) as ->.
    { unfold g, rng_tail, rng_head, rng_of_list in Hy. simpl in Hy.
      rewrite Nat2N.id, Nat.mod_small in Hy by done. congruence. }
    reflexivity.
  - simpl. rewrite fmap_app. simpl. intros H.
    apply list.NoDup_app in H as (_ & H & _). apply (H nm); [done|]. by left.
Qed.

(** ** swap_ingredient *)

Lemma swap_ingredient_returns (r : Recipe) (all : gset string) (g : rng)
    (ing : Ingredient) :
  ingredients r !! selected g (ingredients r) = Some ing ->
  all ∖ {[ get_name ing ]} <> ∅ ->
  exists new_name g',
    swap_ingredient r all g
    = Return (with_ingredients r
                (<[selected g (ingredients r) := set_name ing new_name]> (ingredients r)),
              g')
    /\ new_name ∈ all /\ new_name <> get_name ing.
Proof.
  intros Hsel Hne.
  assert (ingredients r <> []) as Hl by (intros E; by rewrite E in Hsel).
  unfold swap_ingredient, rbind at 1.
  rewrite random_choice_index_nonempty by done. fold (selected g (ingredients r)).
  rewrite Hsel. unfold rbind.
  destruct (random_choice_nonempty (elements (all ∖ {[get_name ing]})) (rng_tail g))
    as (new_name & Hnew & ->).
  { intros E. apply elements_empty_inv in E. by apply leibniz_equiv in E. }
  exists new_name, (rng_tail (rng_tail g)). split; [done|].
  apply list_elem_of_lookup_2, elem_of_elements in Hnew. set_solver.
Qed.

(** C9. On a non-empty recipe, when the inspiring set holds a name other than
    that of the selected ingredient, [swap_ingredient] returns; the selected
    ingredient gets a name of the inspiring set different from its own and
    keeps its amount, every other position is unchanged, and so are the
    number of ingredients and the recipe's name. *)
Theorem swap_ingredient_changes_only_name (r : Recipe) (all : gset string) (g : rng) :
  ingredients r <> [] ->
  (forall ing, ingredients r !! selected g (ingredients r) = Some ing ->
               exists n, n ∈ all /\ n <> get_name ing) ->
  exists ing new_name r' g',
    ingredients r !! selected g (ingredients r) = Some ing
    /\ swap_ingredient r all g = Return (r', g')
    /\ new_name ∈ all /\ new_name <> get_name ing
    /\ ingredients r' !! selected g (ingredients r)
       = Some {| name := new_name; amount := amount ing |}
    /\ (forall j, j <> selected g (ingredients r) ->
                  ingredients r' !! j = ingredients r !! j)
    /\ length (ingredients r') = length (ingredients r)
    /\ get_amount <$> ingredients r' = get_amount <$> ingredients r
    /\ recipe_name r' = recipe_name r.
Proof.
  intros Hl Hall.
  destruct (lookup_lt_is_Some_2 (ingredients r) (selected g (ingredients r)))
    as [ing Hsel]; [by apply mod_length_lt|].
  destruct (Hall ing Hsel) as (n & Hn & Hne).
  destruct (swap_ingredient_returns r all g ing Hsel) as (new_name & g' & Hrun & Hin & Hdiff).
  { set_solver. }
  exists ing, new_name. eexists. exists g'. split; [done|]. split; [exact Hrun|].
  split; [done|]. split; [done|]. simpl.
  split. { apply list_lookup_insert_eq. by eapply lookup_lt_Some. }
  split. { intros j Hj. by apply list_lookup_insert_ne. }
  split. { apply length_insert. }
  split; [|done].
  rewrite list_fmap_insert. simpl. apply list_insert_id.
  by rewrite list_lookup_fmap, Hsel.
Qed.

Lemma swap_ingredient_changes_only_name_witness :
  exists ing new_name r' g',
    ingredients gin_rum_recipe !! selected (rng_of_list [1%N]) (ingredients gin_rum_recipe)
    = Some ing
    /\ swap_ingredient gin_rum_recipe gin_lime (rng_of_list [1%N]) = Return (r', g')
    /\ new_name ∈ gin_lime /\ new_name <> get_name ing
    /\ ingredients r' !! selected (rng_of_list [1%N]) (ingredients gin_rum_recipe)
       = Some {| name := new_name; amount := amount ing |}
    /\ (forall j, j <> selected (rng_of_list [1%N]) (ingredients gin_rum_recipe) ->
                  ingredients r' !! j = ingredients gin_rum_recipe !! j)
    /\ length (ingredients r') = length (ingredients gin_rum_recipe)
    /\ get_amount <$> ingredients r' = get_amount <$> ingredients gin_rum_recipe
    /\ recipe_name r' = recipe_name gin_rum_recipe.
Proof.
  apply (swap_ingredient_changes_only_name gin_rum_recipe gin_lime (rng_of_list [1%N])).
  - discriminate.
  - intros ing Hing. vm_compute in Hing. injection Hing as <-.
    exists "Gin". split; [|discriminate]. unfold gin_lime. set_solver.
Defined.

(** ** Sorting and survivor selection *)

Section sorting.

Context {A : Type} (key : A -> nat).

Lemma insert_by_perm (x : A) (l : list A) : insert_by key x l ≡ₚ x :: l.
Proof.
  induction l as [|y l IH]; simpl; [done|].
  case_decide; [done|]. rewrite IH. apply Permutation_swap.
Qed.

Lemma sorted_perm (l : list A) : sorted key l ≡ₚ l.
Proof.
  induction l as [|x l IH]; simpl; [done|].
  by rewrite insert_by_perm, IH.
Qed.

Lemma sorted_length (l : list A) : length (sorted key l) = length l.
Proof. apply Permutation_length, sorted_perm. Qed.

Lemma ascending_cons (x : A) (l : list A) :
  ascending key (x :: l) <-> Forall (fun y => (key x <= key y)%nat) l /\ ascending key l.
Proof.
  split.
  - intros H. split.
    + apply Forall_lookup. intros i y Hy. by apply (H 0%nat (S i) x y); [lia| |].
    + intros i j a b Hij Ha Hb. apply (H (S i) (S j) a b); [lia|done|done].
  - intros [Hx Hl] i j a b Hij Ha Hb.
    destruct i as [|i], j as [|j]; simpl in *; simplify_eq; try lia.
    + eapply Forall_lookup_1 in Hx; [|done]. done.
    + eapply Hl; [|done|done]. lia.
Qed.

Lemma insert_by_ascending (x : A) (l : list A) :
  ascending key l -> ascending key (insert_by key x l).
Proof.
  induction l as [|y l IH]; simpl; intros Hl.
  - apply ascending_cons. split; [constructor|]. intros i j a b _ Ha. by destruct i.
  - apply ascending_cons in Hl as Hyl. destruct Hyl as [Hy Hl'].
    case_decide as Hxy.
    + apply ascending_cons. split; [|done]. constructor; [done|].
      eapply list.Forall_impl; [exact Hy|]. simpl; intros; lia.
    + apply ascending_cons. split; [|by apply IH].
      rewrite insert_by_perm. constructor; [lia|done].
Qed.

Lemma sorted_ascending (l : list A) : ascending key (sorted key l).
Proof.
  induction l as [|x l IH]; simpl.
  - intros i j a b _ Ha. by destruct i.
  - by apply insert_by_ascending.
Qed.

Lemma ascending_take_drop (l : list A) (k : nat) (a b : A) :
  ascending key l -> a ∈ drop k l -> b ∈ take k l -> (key b <= key a)%nat.
Proof.
  intros Hl Ha Hb.
  apply list_elem_of_lookup in Ha as [i Hi]. rewrite lookup_drop in Hi.
  apply list_elem_of_lookup in Hb as [j Hj].
  apply lookup_take_Some in Hj as [Hj Hjk].
  apply (Hl j (k + i)%nat b a); [lia|done|done].
Qed.
End sorting.

Lemma fittest_half_length (rs : list Recipe) :
  length (fittest_half rs) = (length rs - length rs / 2)%nat.
Proof. unfold fittest_half. by rewrite length_drop, sorted_length. Qed.

(** [crossover] and the offspring loop leave the current population alone. *)
Lemma crossover_recipes m r1 r2 g born g' :
  crossover m r1 r2 g = Return (born, g') -> recipes born.2 = recipes m.
Proof.
  unfold crossover, rbind, rlift, rret. intros H.
  repeat (match type of H with
          | context [match ?x with _ => _ end] => destruct x eqn:?; try discriminate
          end).
  by simplify_eq.
Qed.

Lemma offspring_loop_recipes n : forall m new g res g',
  offspring_loop n m new g = Return (res, g') -> recipes res.2 = recipes m.
Proof.
  induction n as [|n IH]; simpl; intros m new g res g' H.
  - unfold rret in H. by simplify_eq.
  - unfold rbind in H.
    destruct (select_pair (recipes m) g) as [[parents g1]|]; [|discriminate].
    destruct (crossover m parents.1 parents.2 g1) as [[born g2]|] eqn:Hc; [|discriminate].
    apply IH in H. rewrite H. by eapply crossover_recipes.
Qed.

Lemma genetic_algo_value (m : RecipeManager) (g : rng) :
  value_of (genetic_algo m g)
  = (res <-! value_of (offspring_loop (length (recipes m)) m [] g);
     Return (with_recipes res.2 (fittest_half (recipes m) ++ fittest_half res.1))).
Proof.
  unfold genetic_algo, rbind.
  destruct (offspring_loop _ m [] g) as [[res g']|] eqn:H; [|done].
  simpl. by rewrite (offspring_loop_recipes _ _ _ _ _ _ H).
Qed.

(** C5. Survivor selection keeps the part of the ascending sort from index
    [floor(n/2)] on, that is [n - floor(n/2)] recipes (one more than half of
    an odd [n]); no discarded recipe is fitter than a survivor, survivors and
    discarded together are the population, and the next generation is the
    survivors of the old population followed by those of the offspring.  Old
    fitnesses 1, 2, 3, 4 and offspring fitnesses 5, 6 give 3, 4 and 6, three
    recipes in all. *)
Theorem fittest_half_keeps_upper_part (rs : list Recipe) (m : RecipeManager) (g : rng) :
  fittest_half rs = drop (length rs / 2) (sorted get_fitness rs)
  /\ length (fittest_half rs) = (length rs - length rs / 2)%nat
  /\ (forall a b, a ∈ fittest_half rs ->
                  b ∈ take (length rs / 2) (sorted get_fitness rs) ->
                  (get_fitness b <= get_fitness a)%nat)
  /\ take (length rs / 2) (sorted get_fitness rs) ++ fittest_half rs ≡ₚ rs
  /\ value_of (genetic_algo m g)
     = (res <-! value_of (offspring_loop (length (recipes m)) m [] g);
        Return (with_recipes res.2 (fittest_half (recipes m) ++ fittest_half res.1)))
  /\ get_fitness <$> fittest_half [sized "a" 1; sized "b" 2; sized "c" 3; sized "d" 4]
     = [3; 4]%nat
  /\ get_fitness <$> fittest_half [sized "e" 5; sized "f" 6] = [6]%nat
  /\ length (fittest_half [sized "a" 1; sized "b" 2; sized "c" 3; sized "d" 4]
             ++ fittest_half [sized "e" 5; sized "f" 6]) = 3%nat.
Proof.
  split; [done|]. split; [apply fittest_half_length|].
  split. { intros a b. apply ascending_take_drop, sorted_ascending. }
  split. { unfold fittest_half. rewrite take_drop. apply sorted_perm. }
  split; [apply genetic_algo_value|].
  repeat split.
Qed.

(** A population of three keeps two survivors, not one. *)
Lemma fittest_half_odd_keeps_more :
  Nat.odd (length [sized "a" 1; sized "b" 2; sized "c" 3]) = true
  /\ length (fittest_half [sized "a" 1; sized "b" 2; sized "c" 3])
     <> (length [sized "a" 1; sized "b" 2; sized "c" 3] / 2)%nat.
Proof. split; [done|]. vm_compute. lia. Qed.

(** ** Pair selection on degenerate populations *)

Lemma probabilities_zero_sum (fit : nat) (fits : list nat) :
  probabilities (fit :: fits) 0 = Raise ZeroDivisionError.
Proof. reflexivity. Qed.

Lemma probabilities_returns (fits : list nat) (s : nat) :
  s <> 0%nat ->
  probabilities fits s = Return ((fun fit => Qc_of_nat fit / Qc_of_nat s) <$> fits).
Proof.
  intros Hs. induction fits as [|fit fits IH]; simpl; [done|].
  unfold true_div. destruct (decide _); [done|]. simpl. by rewrite IH.
Qed.

Lemma np_random_choice_pair_short {A} (a : list A) (p : list Qc) (g : rng) :
  (length a < 2)%nat -> np_random_choice_pair a p g = Raise ValueError.
Proof.
  intros H. unfold np_random_choice_pair.
  repeat (destruct (decide _); [reflexivity|]). lia.
Qed.

(** C4. When the total fitness is zero or the population has fewer than two
    recipes, pair selection fails: with the [ZeroDivisionError] of
    [fit / sum_fit] when the population is non-empty and its total fitness is
    zero, and otherwise with the [ValueError] of the sampling call. *)
Theorem select_pair_degenerate_raises (rs : list Recipe) (g : rng) :
  sum_nat (get_fitness <$> rs) = 0%nat \/ (length rs < 2)%nat ->
  select_pair rs g
  = Raise (if decide (rs <> [] /\ sum_nat (get_fitness <$> rs) = 0%nat)
           then ZeroDivisionError else ValueError).
Proof.
  intros H. unfold select_pair, rbind, rlift.
  destruct (decide (rs <> [] /\ _)) as [[Hne Hz]|Hn].
  - rewrite Hz. destruct rs as [|r rs]; [done|]. by rewrite fmap_cons, probabilities_zero_sum.
  - destruct rs as [|r rs]; [reflexivity|].
    assert (sum_nat (get_fitness <$> r :: rs) <> 0%nat) as Hs.
    { intros Hz. apply Hn. by split. }
    rewrite probabilities_returns by done.
    apply np_random_choice_pair_short. by destruct H.
Qed.

Lemma select_pair_degenerate_raises_witness :
  select_pair [sized "a" 3] (rng_of_list [])
  = Raise (if decide ([sized "a" 3] <> [] /\ sum_nat (get_fitness <$> [sized "a" 3]) = 0%nat)
           then ZeroDivisionError else ValueError).
Proof.
  apply (select_pair_degenerate_raises [sized "a" 3] (rng_of_list [])).
  right. simpl. lia.
Defined.

(** A population of one empty recipe: the selection divides by zero. *)
Lemma select_pair_divides_by_zero :
  select_pair [sized "a" 0] (rng_of_list []) = Raise ZeroDivisionError.
Proof. reflexivity. Qed.

(** An empty population runs no selection: [genetic_algo] returns it. *)
Lemma genetic_algo_empty_population (n : nat) (all : gset string) (g : rng) :
  genetic_algo {| recipes := []; num_new_recipes := n; all_ingredients := all |} g
  = Return ({| recipes := []; num_new_recipes := n; all_ingredients := all |}, g).
Proof. reflexivity. Qed.

(** ** normalize *)

Lemma normalize_loop_done fuel f (l : list Ingredient) idx :
  (length l <= idx)%nat -> normalize_loop fuel f idx l = l.
Proof.
  intros H. destruct fuel; simpl; [done|]. by rewrite lookup_ge_None_2.
Qed.

Lemma normalize_loop_scale_skip fuel f : forall done rest,
  (length rest <= fuel)%nat ->
  normalize_loop fuel f (length done) (done ++ rest) = done ++ scale_skip f rest.
Proof.
  induction fuel as [|fuel IH]; intros done rest Hfuel.
  - destruct rest; [done|simpl in Hfuel; lia].
  - destruct rest as [|i rest]; simpl.
    { by rewrite lookup_ge_None_2 by (rewrite length_app; simpl; lia). }
    rewrite list_lookup_middle by done.
    destruct (decide _) as [Hlt|Hge].
    + replace (delete (length done) (done ++ i :: rest)) with (done ++ rest).
      2:{ rewrite delete_middle. done. }
      destruct rest as [|next rest].
      * rewrite app_nil_r. apply normalize_loop_done. lia.
      * replace (done ++ next :: rest) with ((done ++ [next]) ++ rest)
          by (by rewrite <- app_assoc).
        replace (S (length done)) with (length (done ++ [next]))
          by (rewrite length_app; simpl; lia).
        rewrite IH by (simpl in Hfuel; lia). by rewrite <- app_assoc.
    + replace (<[length done := set_amount i (get_amount i * f)]> (done ++ i :: rest))
        with ((done ++ [scale f i]) ++ rest).
      2:{ rewrite insert_app_r_alt, Nat.sub_diag by done. simpl. by rewrite <- app_assoc. }
      replace (S (length done)) with (length (done ++ [scale f i]))
        by (rewrite length_app; simpl; lia).
      rewrite IH by (simpl in Hfuel; lia). by rewrite <- app_assoc.
Qed.

Lemma normalize_ingredients_scale_skip (l : list Ingredient) :
  current_total l <> hundred -> current_total l <> Q2Qc 0 ->
  normalize_ingredients l = Return (scale_skip (hundred / current_total l) l).
Proof.
  intros H100 H0. unfold normalize_ingredients.
  destruct (decide _); [done|]. destruct (decide _); [done|].
  f_equal. apply (normalize_loop_scale_skip _ _ [] l). done.
Qed.

Lemma fold_left_amounts (l : list Ingredient) : forall acc,
  fold_left (fun a i => a + get_amount i) l acc = acc + sum_amounts l.
Proof.
  induction l as [|i l IH]; intros acc; simpl.
  - ring.
  - rewrite IH. fold (sum_amounts l). ring.
Qed.

Lemma current_total_sum (l : list Ingredient) : current_total l = sum_amounts l.
Proof. unfold current_total. rewrite fold_left_amounts. ring. Qed.

(** C6. The amounts [normalize] leaves need not add up to 100, and an
    ingredient whose scaled amount is below 0.01 can stay.  Two seed files
    with the lines 0.25 oz Rum, 0.25 oz Lime, 3199.5 oz Gin load as
    [rum_lime_gin_seeded]; a crossover of the two recipes at pivot 1 whose
    mutation is an [add_ingredient] without candidate hands [normalize] the
    same three amounts.  The total is 3200 and the sizing factor 1/32: Rum is
    removed at 0.0078125, Lime moves into its place and is stepped over with
    its 0.25 (its scaled amount would be 0.0078125 too), and Gin becomes
    99.984375.  The offspring is left with 100.234375.  Every value formed
    on the way is a binary64 number, so the code computes the same. *)
Theorem normalize_leaves_sum_off_hundred :
  (m <-! parse_files [rum_lime_gin_lines; rum_lime_gin_lines] RecipeManager_init;
   Return (get_unique_ingredients m)) = Return rum_lime_gin_seeded
  /\ value_of (crossover rum_lime_gin_seeded (rum_lime_gin 0) (rum_lime_gin 1)
                (rng_of_list [1; 0; 1]%N))
     = Return ({| recipe_name := "recipe_2";
                  ingredients := [ingr "Lime" (1 # 4); ingr "Gin" (6399 # 64)] |},
               {| recipes := recipes rum_lime_gin_seeded; num_new_recipes := 3;
                  all_ingredients := all_ingredients rum_lime_gin_seeded |})
  /\ Q2Qc 0 < current_total (ingredients (rum_lime_gin 2))
  /\ normalize (rum_lime_gin 2)
     = Return {| recipe_name := "recipe_2";
                 ingredients := [ingr "Lime" (1 # 4); ingr "Gin" (6399 # 64)] |}
  /\ current_total [ingr "Lime" (1 # 4); ingr "Gin" (6399 # 64)] = Q2Qc (6415 # 64)
  /\ get_amount (ingr "Lime" (1 # 4))
     * (hundred / current_total (ingredients (rum_lime_gin 2))) < hundredth
  /\ forallb binary64 (normalize_values (ingredients (rum_lime_gin 2))) = true.
Proof.
  split; [decide_eq|]. split; [decide_eq|]. split; [reflexivity|].
  split; [decide_eq|]. split; [decide_eq|]. split; reflexivity.
Qed.

(** C7. A second [normalize] is not a no-op.  On the same amounts the first
    application leaves a total of 100.234375 (every value of the first
    application is a binary64 number), so the second one does not take the
    early return of an already normalized recipe: it returns a list that
    differs from the one it was given. *)
Theorem normalize_twice_rescales_again :
  exists once twice,
    normalize (rum_lime_gin 2) = Return once
    /\ forallb binary64 (normalize_values (ingredients (rum_lime_gin 2))) = true
    /\ ingredients once = [ingr "Lime" (1 # 4); ingr "Gin" (6399 # 64)]
    /\ current_total (ingredients once) = Q2Qc (6415 # 64)
    /\ current_total (ingredients once) <> hundred
    /\ normalize once = Return twice
    /\ ingredients twice <> ingredients once.
Proof.
  eexists. eexists. split; [reflexivity|]. split; [reflexivity|].
  split; [decide_eq|]. split; [decide_eq|].
  split; [done|]. split; [reflexivity|].
  vm_compute. discriminate.
Qed.

(** ** Recipe construction: duplicate names are summed *)

Lemma dict_get_set (d : dict) (k k' : string) (v : Qc) :
  dict_get (dict_set d k v) k' = if decide (k = k') then Some v else dict_get d k'.
Proof.
  induction d as [|[k0 v0] d IH]; simpl.
  - by destruct (decide (k = k')).
  - destruct (decide (k0 = k)) as [->|Hne]; simpl.
    + by destruct (decide (k = k')).
    + rewrite IH. destruct (decide (k0 = k')) as [->|]; [|done].
      by destruct (decide (k = k')).
Qed.

Lemma dict_set_keys (d : dict) (k : string) (v : Qc) :
  (dict_set d k v).*1 = if decide (k ∈ d.*1) then d.*1 else d.*1 ++ [k].
Proof.
  induction d as [|[k0 v0] d IH]; [done|].
  simpl dict_set. rewrite fmap_cons. simpl fst.
  destruct (decide (k0 = k)) as [->|Hne]; rewrite fmap_cons; simpl fst.
  - destruct (decide (k ∈ k :: d.*1)) as [|H]; [done|]. exfalso. apply H. by left.
  - rewrite IH. destruct (decide (k ∈ d.*1)) as [Hin|Hnin].
    + destruct (decide (k ∈ k0 :: d.*1)) as [|H]; [done|]. exfalso. apply H. by right.
    + destruct (decide (k ∈ k0 :: d.*1)) as [H|]; [|done].
      apply elem_of_cons in H as [->|H]; done.
Qed.

Lemma dict_get_None (d : dict) (k : string) : dict_get d k = None <-> k ∉ d.*1.
Proof.
  induction d as [|[k0 v0] d IH]; csimpl.
  - split; [intros _; apply not_elem_of_nil|done].
  - rewrite not_elem_of_cons. destruct (decide (k0 = k)) as [->|Hne].
    + split; [done|]. by intros [H _].
    + rewrite IH. split; [intros; split; [congruence|done]|by intros [_ ?]].
Qed.

Lemma dict_get_elem (d : dict) (k : string) (v : Qc) :
  NoDup d.*1 -> (k, v) ∈ d -> dict_get d k = Some v.
Proof.
  induction d as [|[k0 v0] d IH]; csimpl; intros Hnd Hin.
  - by apply elem_of_nil in Hin.
  - apply list.NoDup_cons in Hnd as [Hk0 Hnd].
    apply elem_of_cons in Hin as [E|Hin]; simplify_eq.
    + by case_decide.
    + case_decide as E; [|by apply IH]. subst k0. exfalso. apply Hk0.
      apply list_elem_of_fmap. by exists (k, v).
Qed.

Lemma dict_add_keys_NoDup (d : dict) (e : Qc * string) :
  NoDup d.*1 -> NoDup (dict_add d e).*1.
Proof.
  intros Hnd. unfold dict_add.
  destruct (dict_get d e.2) eqn:Hg; rewrite dict_set_keys; case_decide as Hin; try done.
  - apply dict_get_None in Hin. congruence.
  - apply list.NoDup_app. split; [done|]. split; [|apply NoDup_singleton].
    intros x Hx Hk. apply list_elem_of_singleton in Hk. by subst.
Qed.

Lemma dict_add_keys_elem (d : dict) (e : Qc * string) (k : string) :
  k ∈ (dict_add d e).*1 <-> k = e.2 \/ k ∈ d.*1.
Proof.
  unfold dict_add.
  destruct (dict_get d e.2) eqn:Hg; rewrite dict_set_keys; case_decide as Hin;
    rewrite ?elem_of_app, ?list_elem_of_singleton; naive_solver.
Qed.

Lemma dict_add_get (d : dict) (e : Qc * string) (k : string) :
  dict_get (dict_add d e) k
  = if decide (e.2 = k)
    then Some (match dict_get d k with Some c => c + e.1 | None => e.1 end)
    else dict_get d k.
Proof.
  unfold dict_add.
  destruct (dict_get d e.2) eqn:Hg; rewrite dict_get_set; case_decide; simplify_eq;
    by rewrite ?Hg.
Qed.

Lemma foldl_dict_add_NoDup (entries : list (Qc * string)) : forall d,
  NoDup d.*1 -> NoDup (foldl dict_add d entries).*1.
Proof.
  induction entries as [|e es IH]; simpl; intros d Hd; [done|].
  by apply IH, dict_add_keys_NoDup.
Qed.

Lemma foldl_dict_add_elem (entries : list (Qc * string)) (k : string) : forall d,
  k ∈ (foldl dict_add d entries).*1 <-> k ∈ d.*1 \/ k ∈ entries.*2.
Proof.
  induction entries as [|e es IH]; csimpl; intros d.
  - rewrite elem_of_nil. naive_solver.
  - rewrite IH, dict_add_keys_elem, elem_of_cons. naive_solver.
Qed.

Lemma foldl_dict_add_get (entries : list (Qc * string)) (k : string) : forall d,
  k ∈ (foldl dict_add d entries).*1 ->
  dict_get (foldl dict_add d entries) k
  = Some (match dict_get d k with
          | Some c => c + sum_of k entries
          | None => sum_of k entries
          end).
Proof.
  induction entries as [|e es IH]; simpl; intros d Hk.
  - destruct (dict_get d k) eqn:Hg.
    + f_equal. ring.
    + apply dict_get_None in Hg. done.
  - rewrite IH by done. rewrite dict_add_get. f_equal.
    case_decide; [|done]. destruct (dict_get d k); ring.
Qed.

Lemma fill_dict_foldl (lines : list string) (entries : list (Qc * string)) :
  Forall2 (fun line e => parse_line line = Return e) lines entries ->
  forall d, fill_dict lines d = Return (foldl dict_add d entries).
Proof.
  induction 1 as [|line [amt nm] lines entries Hp _ IH]; intros d; simpl; [done|].
  rewrite Hp. simpl. unfold dict_add. simpl.
  destruct (dict_get d nm); apply IH.
Qed.

(** The ingredients built from lines that parse to [entries]. *)
Lemma Recipe_init_entries (n : nat) (lines : list string) (entries : list (Qc * string)) :
  Forall2 (fun line e => parse_line line = Return e) lines entries ->
  exists r,
    Recipe_init n lines = Return r
    /\ recipe_name r = "recipe_" +:+ str_nat n
    /\ NoDup (get_name <$> ingredients r)
    /\ (forall nm, nm ∈ get_name <$> ingredients r <-> nm ∈ entries.*2)
    /\ (forall i, i ∈ ingredients r -> get_amount i = sum_of (get_name i) entries).
Proof.
  intros Hp. unfold Recipe_init, make_ingredient_objects.
  rewrite (fill_dict_foldl _ _ Hp). simpl.
  set (d := foldl dict_add [] entries).
  assert (get_name <$> ((fun e : string * Qc => mkIngredient e.1 e.2) <$> d) = d.*1) as Hn.
  { rewrite <- list_fmap_compose. by apply list_fmap_ext. }
  assert (NoDup d.*1) as Hnd by (apply foldl_dict_add_NoDup; constructor).
  eexists. split; [done|]. split; [done|]. simpl. rewrite Hn.
  split; [done|]. split.
  - intros nm. unfold d. rewrite foldl_dict_add_elem. csimpl. rewrite elem_of_nil.
    naive_solver.
  - intros i Hi. apply list_elem_of_fmap in Hi as ([k v] & -> & Hkv). simpl.
    pose proof (dict_get_elem _ _ _ Hnd Hkv) as Hg.
    unfold d in Hg. rewrite foldl_dict_add_get in Hg.
    + simpl in Hg. by simplify_eq.
    + apply list_elem_of_fmap. by exists (k, v).
Qed.

(** C8. When every line parses, construction returns a recipe in which each
    name of the lines occurs exactly once, with the sum of the amounts of the
    lines that carry it; the lines "1 oz Gin" and "2 oz Gin" give the single
    ingredient Gin with amount 3. *)
Theorem Recipe_init_sums_duplicate_names (n : nat) (lines : list string)
    (entries : list (Qc * string)) :
  Forall2 (fun line e => parse_line line = Return e) lines entries ->
  (exists r,
     Recipe_init n lines = Return r
     /\ NoDup (get_name <$> ingredients r)
     /\ (forall nm, nm ∈ get_name <$> ingredients r <-> nm ∈ entries.*2)
     /\ (forall i, i ∈ ingredients r -> get_amount i = sum_of (get_name i) entries))
  /\ Recipe_init 0 ["1 oz Gin"; "2 oz Gin"]
     = Return {| recipe_name := "recipe_0"; ingredients := [ingr "Gin" 3] |}.
Proof.
  intros Hp. split; [|decide_eq].
  destruct (Recipe_init_entries n lines entries Hp) as (r & Hr & _ & Hnd & Hin & Hsum).
  by exists r.
Qed.

Lemma Recipe_init_sums_duplicate_names_witness :
  (exists r,
     Recipe_init 7 ["1 oz Gin"; "2 oz Lime"; "0.5 oz Gin"] = Return r
     /\ NoDup (get_name <$> ingredients r)
     /\ (forall nm, nm ∈ get_name <$> ingredients r
                    <-> nm ∈ [(Q2Qc 1, "Gin"); (Q2Qc 2, "Lime"); (Q2Qc (1 # 2), "Gin")].*2)
     /\ (forall i, i ∈ ingredients r ->
                   get_amount i
                   = sum_of (get_name i)
                       [(Q2Qc 1, "Gin"); (Q2Qc 2, "Lime"); (Q2Qc (1 # 2), "Gin")]))
  /\ Recipe_init 0 ["1 oz Gin"; "2 oz Gin"]
     = Return {| recipe_name := "recipe_0"; ingredients := [ingr "Gin" 3] |}.
Proof.
  apply (Recipe_init_sums_duplicate_names 7
           ["1 oz Gin"; "2 oz Lime"; "0.5 oz Gin"]
           [(Q2Qc 1, "Gin"); (Q2Qc 2, "Lime"); (Q2Qc (1 # 2), "Gin")]).
  repeat constructor; decide_eq.
Defined.
(** ** Text round trip *)

Lemma all_chars_app p (s t : string) :
  all_chars p (s +:+ t) = all_chars p s && all_chars p t.
Proof. induction s as [|c s IH]; simpl; [done|]. by rewrite IH, andb_assoc. Qed.

Lemma all_chars_impl (p q : ascii -> bool) (s : string) :
  (forall c, p c = true -> q c = true) -> all_chars p s = true -> all_chars q s = true.
Proof.
  intros Hpq. induction s as [|c s IH]; simpl; [done|].
  intros [Hc Hs]%andb_true_iff. rewrite (Hpq c Hc). by apply IH.
Qed.

Lemma is_digit_plain (c : ascii) :
  is_digit c = true ->
  is_space c = false /\ is_exp c = false /\ is_dot c = false
  /\ Ascii.eqb c "-" = false /\ Ascii.eqb c "+" = false /\ Ascii.eqb c " " = false.
Proof.
  destruct c as [[] [] [] [] [] [] [] []]; vm_compute; intros H; try discriminate H;
    repeat split.
Qed.

Lemma string_of_uint_digits (d : Decimal.uint) :
  all_chars is_digit (NilEmpty.string_of_uint d) = true.
Proof. induction d; simpl; done. Qed.

Lemma digits_of_digits (n : N) : all_chars is_digit (digits_of n) = true.
Proof. apply string_of_uint_digits. Qed.

Lemma digits_of_value (n : N) : digits_value (digits_of n) = Some n.
Proof.
  unfold digits_value, digits_of. rewrite NilEmpty.usu. simpl.
  by rewrite DecimalN.Unsigned.of_to.
Qed.

Lemma digits_of_nonempty (n : N) : exists c s, digits_of n = String c s.
Proof.
  unfold digits_of. destruct n as [|p]; [by eexists _, _|].
  simpl. pose proof (DecimalPos.Unsigned.to_uint_nonnil p) as H.
  destruct (Pos.to_uint p); [done|..]; by eexists _, _.
Qed.

Lemma lstrip_id (c : ascii) (s : string) :
  is_space c = false -> lstrip (String c s) = String c s.
Proof. intros H. simpl. by rewrite H. Qed.

Lemma rstrip_id (s : string) :
  all_chars (fun c => negb (is_space c)) s = true -> rstrip s = s.
Proof.
  induction s as [|c s IH]; simpl; [done|].
  intros [Hc Hs]%andb_true_iff. rewrite (IH Hs).
  apply negb_true_iff in Hc. rewrite Hc. by destruct s.
Qed.

Lemma cut_at_none (p : ascii -> bool) (s : string) :
  all_chars (fun c => negb (p c)) s = true -> cut_at p s = (s, None).
Proof.
  induction s as [|c s IH]; simpl; [done|].
  intros [Hc Hs]%andb_true_iff. apply negb_true_iff in Hc.
  by rewrite Hc, (IH Hs).
Qed.

Lemma cut_at_first (p : ascii -> bool) (a b : string) (c : ascii) :
  all_chars (fun c => negb (p c)) a = true -> p c = true ->
  cut_at p (a +:+ String c b) = (a, Some b).
Proof.
  intros Ha Hc. induction a as [|x a IH]; simpl.
  - by rewrite Hc.
  - simpl in Ha. apply andb_true_iff in Ha as [Hx Ha]. apply negb_true_iff in Hx.
    by rewrite Hx, (IH Ha).
Qed.

Lemma split_oz_cons (c : ascii) (tl : string) :
  Ascii.eqb c " " = false -> split_oz (String c tl) = cons_head c (split_oz tl).
Proof.
  intros H. destruct tl as [|c2 [|c3 [|c4 rest]]]; try done.
  cbn [split_oz]. unfold is_oz. by rewrite H.
Qed.

Lemma split_oz_line (a nm : string) :
  all_chars (fun c => negb (Ascii.eqb c " ")) a = true ->
  split_oz (a +:+ " oz " +:+ nm) = a :: split_oz nm.
Proof.
  induction a as [|c a IH]; intros Ha.
  - reflexivity.
  - simpl in Ha. apply andb_true_iff in Ha as [Hc Ha]. apply negb_true_iff in Hc.
    change (String c a +:+ " oz " +:+ nm) with (String c (a +:+ " oz " +:+ nm)).
    by rewrite split_oz_cons, (IH Ha).
Qed.

Lemma frac_ok_below_100 (fp : N) : (fp < 100)%N -> frac_ok fp = true.
Proof.
  intros H.
  assert (forallb frac_ok (map N.of_nat (seq 0 100)) = true) as Hall by (by vm_compute).
  rewrite forallb_forall in Hall. apply Hall.
  rewrite <- (N2Nat.id fp). apply in_map, in_seq. lia.
Qed.

Lemma frac_digits_value (fp : N) :
  (fp < 100)%N ->
  exists f,
    digits_value (frac_digits fp) = Some f
    /\ all_chars is_digit (frac_digits fp) = true
    /\ String.length (frac_digits fp) <> 0%nat
    /\ (inject_Z (Z.of_N f) / pow10 (N.of_nat (String.length (frac_digits fp)))
        == Z.of_N fp # 100)%Q.
Proof.
  intros H. apply frac_ok_below_100 in H. unfold frac_ok in H.
  destruct (digits_value (frac_digits fp)) as [f|]; [|done].
  apply andb_true_iff in H as [[H1 H2]%andb_true_iff H3].
  exists f. split; [done|]. split; [done|]. split.
  - apply negb_true_iff, Nat.eqb_neq in H2. done.
  - by apply Qeq_bool_iff.
Qed.

Lemma round_half_even_bounds (q : Q) :
  (Qnum q / Zpos (Qden q) <= round_half_even q <= Qnum q / Zpos (Qden q) + 1)%Z.
Proof.
  unfold round_half_even.
  destruct (_ ?= _)%Z; [destruct (Z.even _)|..]; lia.
Qed.

Lemma hundredths_sign (x : Qc) :
  (x < Q2Qc 0 -> (hundredths x <= 0)%Z) /\ (~ x < Q2Qc 0 -> (0 <= hundredths x)%Z).
Proof.
  unfold hundredths.
  pose proof (round_half_even_bounds (this x * 100)%Q) as Hb.
  replace (Qnum (this x * 100)%Q) with (Qnum (this x) * 100)%Z in Hb by done.
  set (b := Zpos (Qden (this x * 100)%Q)) in *.
  assert (0 < b)%Z as Hbpos by done.
  split; intros Hx.
  - assert (Qnum (this x) < 0)%Z as Hn.
    { unfold Qclt, Qlt in Hx. simpl in Hx. lia. }
    assert (Qnum (this x) * 100 / b < 0)%Z by (apply Z.div_lt_upper_bound; lia).
    lia.
  - assert (0 <= Qnum (this x))%Z as Hn.
    { apply Qcnot_lt_le in Hx. unfold Qcle, Qle in Hx. simpl in Hx. lia. }
    assert (0 <= Qnum (this x) * 100 / b)%Z by (apply Z.div_pos; lia).
    lia.
Qed.

Lemma mantissa_value_printed (ip fp : N) :
  (fp < 100)%N ->
  exists v,
    mantissa_value (digits_of ip +:+ "." +:+ frac_digits fp) = Some v
    /\ (v == Z.of_N (100 * ip + fp) # 100)%Q.
Proof.
  intros Hfp. destruct (frac_digits_value fp Hfp) as (f & Hf & _ & Hlen & Hq).
  unfold mantissa_value.
  change ("." +:+ frac_digits fp) with (String "." (frac_digits fp)).
  rewrite (cut_at_first is_dot (digits_of ip) (frac_digits fp) "."); [|..|done].
  2:{ eapply all_chars_impl; [|apply digits_of_digits].
      intros c Hc. apply is_digit_plain in Hc as (_ & _ & -> & _). done. }
  simpl default.
  destruct (_ =? 0)%nat eqn:E.
  { apply Nat.eqb_eq in E. lia. }
  rewrite digits_of_value, Hf. simpl. eexists. split; [done|].
  rewrite Hq. unfold Qeq. simpl. lia.
Qed.

Lemma printed_body (ip fp : N) :
  (fp < 100)%N ->
  let body := digits_of ip +:+ "." +:+ frac_digits fp in
  all_chars (fun c => negb (is_space c)) body = true
  /\ all_chars (fun c => negb (is_exp c)) body = true
  /\ all_chars (fun c => negb (Ascii.eqb c " ")) body = true
  /\ exists c t, body = String c t /\ is_digit c = true.
Proof.
  intros Hfp body.
  destruct (frac_digits_value fp Hfp) as (f & _ & Hfd & _ & _).
  assert (all_chars (fun c => is_digit c || is_dot c) body = true) as Hall.
  { unfold body. rewrite !all_chars_app.
    apply andb_true_iff. split; [|apply andb_true_iff; split; [done|]].
    - eapply all_chars_impl; [|apply digits_of_digits]. by intros c ->.
    - eapply all_chars_impl; [|exact Hfd]. by intros c ->. }
  assert (forall c, is_digit c || is_dot c = true ->
                    is_space c = false /\ is_exp c = false /\ Ascii.eqb c " " = false)
    as Hplain.
  { intros c [Hc|Hc]%orb_true_iff.
    - apply is_digit_plain in Hc. tauto.
    - apply Ascii.eqb_eq in Hc. by subst c. }
  split; [|split; [|split]].
  - eapply all_chars_impl; [|exact Hall]. intros c Hc.
    apply Hplain in Hc as (-> & _ & _). done.
  - eapply all_chars_impl; [|exact Hall]. intros c Hc.
    apply Hplain in Hc as (_ & -> & _). done.
  - eapply all_chars_impl; [|exact Hall]. intros c Hc.
    apply Hplain in Hc as (_ & _ & ->). done.
  - destruct (digits_of_nonempty ip) as (c & t & Hct).
    exists c, (t +:+ "." +:+ frac_digits fp). unfold body. rewrite Hct. split; [done|].
    pose proof (digits_of_digits ip) as Hd. rewrite Hct in Hd. simpl in Hd.
    by apply andb_true_iff in Hd as [-> _].
Qed.

(** Reading back a printed amount gives the rounded amount. *)
Lemma float_str_round2 (x : Qc) : float (str_round2 x) = Return (round2 x).
Proof.
  unfold str_round2, round2.
  set (n := hundredths x).
  set (m := Z.to_N (Z.abs n)).
  assert (m mod 100 < 100)%N as Hfp by (by apply N.mod_lt).
  destruct (mantissa_value_printed (m / 100) (m mod 100) Hfp) as (v & Hv & Hq).
  destruct (printed_body (m / 100) (m mod 100) Hfp) as (Hsp & Hex & _ & c & t & Hct & Hc).
  rewrite <- N.div_mod in Hq by done.
  replace (Z.of_N m) with (Z.abs n) in Hq by (unfold m; lia).
  destruct (hundredths_sign x) as [Hneg Hpos]. fold n in Hneg, Hpos.
  set (body := digits_of (m / 100) +:+ "." +:+ frac_digits (m mod 100)) in *.
  apply is_digit_plain in Hc as Hplain.
  destruct Hplain as (Hcs & _ & _ & Hminus & Hplus & _).
  unfold float.
  destruct (decide (x < Q2Qc 0)) as [Hx|Hx].
  - change ("-" +:+ body) with (String "-" body).
    unfold strip. rewrite lstrip_id by done.
    rewrite rstrip_id by (simpl; exact Hsp).
    cbn [cut_sign]. change (Ascii.eqb "-" "-") with true. cbn iota.
    rewrite (cut_at_none is_exp body Hex), Hv. simpl.
    f_equal. apply Q2Qc_eq_iff. rewrite Hq. specialize (Hneg Hx).
    unfold Qeq. simpl. lia.
  - change ("" +:+ body) with body.
    unfold strip. rewrite Hct, lstrip_id by done. rewrite <- Hct.
    rewrite rstrip_id by done.
    rewrite Hct. cbn [cut_sign]. rewrite Hminus, Hplus. rewrite <- Hct.
    rewrite (cut_at_none is_exp body Hex), Hv. simpl.
    f_equal. apply Q2Qc_eq_iff. rewrite Hq. specialize (Hpos Hx).
    unfold Qeq. simpl. lia.
Qed.

Lemma str_round2_no_space (x : Qc) :
  all_chars (fun c => negb (Ascii.eqb c " ")) (str_round2 x) = true.
Proof.
  unfold str_round2.
  set (m := Z.to_N (Z.abs (hundredths x))).
  assert (m mod 100 < 100)%N as Hfp by (by apply N.mod_lt).
  destruct (printed_body (m / 100) (m mod 100) Hfp) as (_ & _ & Hb & _).
  rewrite all_chars_app, Hb. by destruct (decide _).
Qed.

(** A printed ingredient reads back as its rounded amount and its name. *)
Lemma parse_line_Ingredient_str (i : Ingredient) :
  sep_free (get_name i) ->
  parse_line (Ingredient_str i) = Return (round2 (get_amount i), get_name i).
Proof.
  intros Hn. unfold parse_line, Ingredient_str.
  rewrite split_oz_line by apply str_round2_no_space.
  unfold get_name in Hn. rewrite Hn. simpl.
  by rewrite float_str_round2.
Qed.

Lemma cross_lines_crossed (r1 r2 : Recipe) (pivot : nat) :
  cross_lines r1 r2 pivot = Ingredient_str <$> crossed r1 r2 pivot.
Proof.
  unfold cross_lines, crossed, get_ingredient_strings.
  by rewrite fmap_app, fmap_take, fmap_drop.
Qed.

Lemma cross_lines_parse (r1 r2 : Recipe) (pivot : nat) :
  Forall (fun i => sep_free (get_name i)) (ingredients r1 ++ ingredients r2) ->
  Forall2 (fun line e => parse_line line = Return e)
          (cross_lines r1 r2 pivot) (rounded_entry <$> crossed r1 r2 pivot).
Proof.
  intros Hn. rewrite cross_lines_crossed.
  apply Forall2_fmap, Forall_Forall2_diag.
  apply Forall_app in Hn as [H1 H2].
  apply Forall_app. split.
  - eapply list.Forall_impl; [by apply Forall_take|]. apply parse_line_Ingredient_str.
  - eapply list.Forall_impl; [by apply Forall_drop|]. apply parse_line_Ingredient_str.
Qed.

Lemma np_random_randint_returns (high : nat) (g : rng) :
  (0 < high)%nat ->
  exists pivot, (pivot < high)%nat
                /\ np_random_randint 0 high g = Return (pivot, rng_tail g).
Proof.
  intros H. unfold np_random_randint. destruct (decide _); [lia|].
  eexists. split; [|reflexivity]. simpl. rewrite Nat.sub_0_r.
  apply Nat.mod_upper_bound. lia.
Qed.

(** ** Names never contain the separator *)

Lemma split_oz_unfold (c : ascii) (tl : string) :
  split_oz (String c tl)
  = if starts_with_sep (String c tl)
    then EmptyString :: split_oz (after_sep (String c tl))
    else cons_head c (split_oz tl).
Proof. by destruct tl as [|c2 [|c3 [|c4 rest]]]. Qed.

Lemma after_sep_length (s : string) :
  starts_with_sep s = true -> (String.length (after_sep s) < String.length s)%nat.
Proof.
  destruct s as [|c1 [|c2 [|c3 [|c4 rest]]]]; try discriminate. simpl. lia.
Qed.

Lemma split_oz_head_prefix (s : string) :
  exists p ps t, split_oz s = p :: ps /\ s = p +:+ t.
Proof.
  induction s as [|c tl (p & ps & t & Hs & Ht)].
  - by exists EmptyString, [], EmptyString.
  - rewrite split_oz_unfold. destruct (starts_with_sep _).
    + by eexists EmptyString, _, _.
    + rewrite Hs. exists (String c p), ps, t. split; [done|]. by rewrite Ht at 1.
Qed.

Lemma starts_with_sep_prefix (p t : string) :
  starts_with_sep (p +:+ t) = false -> starts_with_sep p = false.
Proof. by destruct p as [|c1 [|c2 [|c3 [|c4 rest]]]]. Qed.

Lemma split_oz_parts_sep_free_bounded (n : nat) : forall s,
  (String.length s <= n)%nat -> Forall sep_free (split_oz s).
Proof.
  induction n as [|n IH]; intros s Hlen.
  - destruct s; [|simpl in Hlen; lia]. by repeat constructor.
  - destruct s as [|c tl]; [by repeat constructor|].
    rewrite split_oz_unfold.
    destruct (starts_with_sep (String c tl)) eqn:Hsep.
    + constructor; [done|]. apply IH.
      apply after_sep_length in Hsep. lia.
    + simpl in Hlen.
      destruct (split_oz_head_prefix tl) as (p & ps & t & Hs & Ht).
      pose proof (IH tl ltac:(lia)) as Hall. rewrite Hs in *. simpl.
      apply list.Forall_cons in Hall as [Hp Hps]. constructor; [|done].
      unfold sep_free in *. rewrite split_oz_unfold, Hp.
      rewrite (starts_with_sep_prefix (String c p) t); [done|].
      rewrite Ht in Hsep. exact Hsep.
Qed.

Lemma split_oz_parts_sep_free (s : string) : Forall sep_free (split_oz s).
Proof. by apply (split_oz_parts_sep_free_bounded (String.length s)). Qed.

Lemma parse_line_name_sep_free (line : string) (amt : Qc) (nm : string) :
  parse_line line = Return (amt, nm) -> sep_free nm.
Proof.
  unfold parse_line. intros H.
  destruct (split_oz line !! 0%nat) as [a|]; [|done].
  destruct (float a); [|done]. simpl in H.
  destruct (split_oz line !! 1%nat) as [nm'|] eqn:Hnm; [|done].
  simpl in H. simplify_eq.
  eapply Forall_lookup_1; [apply split_oz_parts_sep_free|exact Hnm].
Qed.

Lemma fill_dict_returns (lines : list string) : forall d d',
  fill_dict lines d = Return d' ->
  exists entries, Forall2 (fun line e => parse_line line = Return e) lines entries.
Proof.
  induction lines as [|line lines IH]; simpl; intros d d' H.
  - exists []. constructor.
  - destruct (parse_line line) as [[amt nm]|] eqn:Hp; [|done]. simpl in H.
    destruct (dict_get d nm); apply IH in H as [entries Hes];
      exists ((amt, nm) :: entries); by constructor.
Qed.

(** Every name of a constructed recipe is free of the separator, so the
    names of a run are: the inspiring set and the offspring hold no others. *)
Lemma Recipe_init_names_sep_free (n : nat) (lines : list string) (r : Recipe) :
  Recipe_init n lines = Return r ->
  Forall (fun i => sep_free (get_name i)) (ingredients r).
Proof.
  intros Hr.
  assert (exists entries, Forall2 (fun line e => parse_line line = Return e) lines entries)
    as [entries Hes].
  { unfold Recipe_init, make_ingredient_objects in Hr.
    destruct (fill_dict lines []) as [d|] eqn:Hd; [|done]. by eapply fill_dict_returns. }
  destruct (Recipe_init_entries n lines entries Hes) as (r' & Hr' & _ & _ & Hin & _).
  rewrite Hr in Hr'. injection Hr' as <-.
  apply list.Forall_forall. intros i Hi.
  assert (get_name i ∈ entries.*2) as Hnm.
  { apply Hin, list_elem_of_fmap. by exists i. }
  apply list_elem_of_fmap in Hnm as ([amt nm] & Hnm & He). simpl in Hnm. rewrite Hnm.
  apply list_elem_of_lookup in He as [k Hk].
  destruct (Forall2_lookup_r _ _ _ _ _ Hes Hk) as (line & _ & Hp).
  by eapply parse_line_name_sep_free.
Qed.

(** ** Crossover *)

(** C10. [crossover] draws a pivot below the shorter parent's length and
    builds the offspring from the parents' printed lines; before mutation
    each name of the crossed ingredients occurs once in the offspring, with
    the sum of the amounts rounded to two decimals of the crossed
    ingredients that carry it.  Two parents holding 1/3 of Gin on either side
    of the pivot give 0.66 of Gin, not 2/3. *)
Theorem crossover_amounts_are_rounded (m : RecipeManager) (r1 r2 : Recipe) (g : rng) :
  Forall (fun i => sep_free (get_name i)) (ingredients r1 ++ ingredients r2) ->
  (0 < get_fitness r1 `min` get_fitness r2)%nat ->
  (exists pivot r,
     (pivot < get_fitness r1 `min` get_fitness r2)%nat
     /\ Recipe_init (num_new_recipes m) (cross_lines r1 r2 pivot) = Return r
     /\ crossover m r1 r2 g
        = (r' <-? mutate r (all_ingredients m);
           rret (r', {| recipes := recipes m;
                        num_new_recipes := S (num_new_recipes m);
                        all_ingredients := all_ingredients m |})) (rng_tail g)
     /\ NoDup (get_name <$> ingredients r)
     /\ (forall nm, nm ∈ get_name <$> ingredients r
                    <-> nm ∈ get_name <$> crossed r1 r2 pivot)
     /\ (forall i, i ∈ ingredients r ->
                   get_amount i
                   = sum_of (get_name i) (rounded_entry <$> crossed r1 r2 pivot)))
  /\ Recipe_init 2 (cross_lines thirds_a thirds_b 1)
     = Return {| recipe_name := "recipe_2"; ingredients := [ingr "Gin" (66 # 100)] |}.
Proof.
  intros Hn Hmin. split; [|decide_eq].
  destruct (np_random_randint_returns _ g Hmin) as (pivot & Hlt & Hdraw).
  destruct (Recipe_init_entries (num_new_recipes m) _ _ (cross_lines_parse r1 r2 pivot Hn))
    as (r & Hr & _ & Hnd & Hin & Hsum).
  exists pivot, r. split; [done|]. split; [done|]. split.
  { unfold crossover. unfold rbind at 1. rewrite Hdraw.
    unfold rbind at 1. unfold rlift. by rewrite Hr. }
  split; [done|]. split; [|done].
  intros nm. rewrite Hin. rewrite <- list_fmap_compose.
  by replace (snd ∘ rounded_entry) with get_name.
Qed.

Lemma crossover_amounts_are_rounded_witness :
  (exists pivot r,
     (pivot < get_fitness thirds_a `min` get_fitness thirds_b)%nat
     /\ Recipe_init (num_new_recipes three_names) (cross_lines thirds_a thirds_b pivot)
        = Return r
     /\ crossover three_names thirds_a thirds_b (rng_of_list [1%N])
        = (r' <-? mutate r (all_ingredients three_names);
           rret (r', {| recipes := recipes three_names;
                        num_new_recipes := S (num_new_recipes three_names);
                        all_ingredients := all_ingredients three_names |}))
            (rng_tail (rng_of_list [1%N]))
     /\ NoDup (get_name <$> ingredients r)
     /\ (forall nm, nm ∈ get_name <$> ingredients r
                    <-> nm ∈ get_name <$> crossed thirds_a thirds_b pivot)
     /\ (forall i, i ∈ ingredients r ->
                   get_amount i
                   = sum_of (get_name i)
                       (rounded_entry <$> crossed thirds_a thirds_b pivot)))
  /\ Recipe_init 2 (cross_lines thirds_a thirds_b 1)
     = Return {| recipe_name := "recipe_2"; ingredients := [ingr "Gin" (66 # 100)] |}.
Proof.
  apply (crossover_amounts_are_rounded three_names thirds_a thirds_b (rng_of_list [1%N])).
  - decide_eq.
  - simpl. lia.
Defined.

(** * Further properties of the operators *)

(** ** Sampling ranges *)

Lemma np_random_choice_index_nonempty {A} (l : list A) g :
  l <> [] ->
  np_random_choice_index l g
  = Return ((N.to_nat (rng_head g) mod length l)%nat, rng_tail g).
Proof. destruct l; [done|]. reflexivity. Qed.

Lemma random_random_range (g : rng) :
  exists x, random_random g = Return (x, rng_tail g) /\ Q2Qc 0 <= x /\ x < Q2Qc 1.
Proof.
  unfold random_random, rbind, draw, rret. eexists. split; [reflexivity|].
  pose proof (N.mod_lt (rng_head g) (Npos two53) ltac:(done)) as H.
  revert H. generalize (rng_head g mod N.pos two53)%N. intros n H.
  unfold Qcle, Qclt, Q2Qc. cbn [this]. rewrite !Qred_correct.
  unfold Qle, Qlt. simpl. lia.
Qed.

Lemma uniform_factor_range (x : Qc) :
  Q2Qc 0 <= x -> x < Q2Qc 1 ->
  Q2Qc (1 # 10) <= (Q2Qc (-9 # 10) + (Q2Qc (9 # 10) - Q2Qc (-9 # 10)) * x) + Q2Qc 1
  /\ (Q2Qc (-9 # 10) + (Q2Qc (9 # 10) - Q2Qc (-9 # 10)) * x) + Q2Qc 1 < Q2Qc (19 # 10).
Proof.
  intros H0 H1.
  replace (Q2Qc (-9 # 10) + (Q2Qc (9 # 10) - Q2Qc (-9 # 10)) * x + Q2Qc 1)
    with (Q2Qc (1 # 10) + Q2Qc (18 # 10) * x).
  2:{ replace (Q2Qc (9 # 10) - Q2Qc (-9 # 10)) with (Q2Qc (18 # 10))
        by (by apply Qc_is_canon).
      replace (Q2Qc (1 # 10)) with (Q2Qc (-9 # 10) + Q2Qc 1) by (by apply Qc_is_canon).
      ring. }
  assert (Q2Qc 0 < Q2Qc (18 # 10)) as Hpos by done.
  split.
  - replace (Q2Qc (1 # 10)) with (Q2Qc (1 # 10) + Q2Qc (18 # 10) * Q2Qc 0) at 1
      by (by apply Qc_is_canon).
    by apply Qcplus_le_mono_l, Qcmult_le_mono_pos_l.
  - replace (Q2Qc (19 # 10)) with (Q2Qc (1 # 10) + Q2Qc (18 # 10) * Q2Qc 1)
      by (by apply Qc_is_canon).
    by apply Qcplus_lt_mono_l, Qcmult_lt_mono_pos_l.
Qed.

(** ** change_amount *)

(** On a non-empty recipe [change_amount] returns; it multiplies the amount
    of the selected ingredient by a factor of at least 0.1 and below 1.9 and
    changes neither a name nor the number of ingredients. *)
Theorem change_amount_scales_selected (r : Recipe) (g : rng) :
  ingredients r <> [] ->
  exists ing factor r' g',
    ingredients r !! selected g (ingredients r) = Some ing
    /\ change_amount r g = Return (r', g')
    /\ Q2Qc (1 # 10) <= factor /\ factor < Q2Qc (19 # 10)
    /\ ingredients r'
       = <[selected g (ingredients r) := set_amount ing (factor * get_amount ing)]>
           (ingredients r)
    /\ get_name <$> ingredients r' = get_name <$> ingredients r
    /\ length (ingredients r') = length (ingredients r)
    /\ recipe_name r' = recipe_name r.
Proof.
  intros Hl.
  destruct (lookup_lt_is_Some_2 (ingredients r) (selected g (ingredients r)))
    as [ing Hsel]; [by apply mod_length_lt|].
  destruct (random_random_range (rng_tail g)) as (x & Hx & Hx0 & Hx1).
  destruct (uniform_factor_range x Hx0 Hx1) as [Hlo Hhi].
  exists ing. eexists. eexists. eexists. split; [done|]. split.
  { unfold change_amount, rbind at 1. rewrite np_random_choice_index_nonempty by done.
    fold (selected g (ingredients r)). rewrite Hsel.
    unfold rbind, random_uniform, rbind. rewrite Hx. reflexivity. }
  split; [exact Hlo|]. split; [exact Hhi|]. simpl.
  split; [done|]. split; [|split; [apply length_insert|done]].
  rewrite list_fmap_insert. apply list_insert_id.
  by rewrite list_lookup_fmap, Hsel.
Qed.

Lemma change_amount_scales_selected_witness :
  exists ing factor r' g',
    ingredients gin_rum_recipe !! selected (rng_of_list [1; 5]%N) (ingredients gin_rum_recipe)
    = Some ing
    /\ change_amount gin_rum_recipe (rng_of_list [1; 5]%N) = Return (r', g')
    /\ Q2Qc (1 # 10) <= factor /\ factor < Q2Qc (19 # 10)
    /\ ingredients r'
       = <[selected (rng_of_list [1; 5]%N) (ingredients gin_rum_recipe)
           := set_amount ing (factor * get_amount ing)]>
           (ingredients gin_rum_recipe)
    /\ get_name <$> ingredients r' = get_name <$> ingredients gin_rum_recipe
    /\ length (ingredients r') = length (ingredients gin_rum_recipe)
    /\ recipe_name r' = recipe_name gin_rum_recipe.
Proof.
  apply (change_amount_scales_selected gin_rum_recipe (rng_of_list [1; 5]%N)).
  discriminate.
Defined.

(** ** add_ingredient *)

(** When the inspiring set holds a name the recipe lacks, [add_ingredient]
    returns and appends exactly one ingredient: its name is some name of the
    inspiring set, its amount a whole number from 0 to 99, and the
    ingredients already there keep their place. *)
Theorem add_ingredient_appends_one (r : Recipe) (all : gset string) (g : rng) :
  all ∖ list_to_set (get_name <$> ingredients r) <> ∅ ->
  exists new_name new_amt g',
    add_ingredient r all g
    = Return (with_ingredients r
                (ingredients r ++ [mkIngredient new_name (Qc_of_nat new_amt)]), g')
    /\ new_name ∈ all /\ (new_amt < 100)%nat.
Proof.
  intros Hne. unfold add_ingredient. destruct (decide _) as [Hz|_].
  { apply size_empty_inv in Hz. by apply leibniz_equiv in Hz. }
  unfold rbind at 1.
  destruct (random_choice_nonempty
              (elements (all ∖ list_to_set (get_name <$> ingredients r))) g)
    as (x & _ & ->).
  { intros E. apply elements_empty_inv in E. by apply leibniz_equiv in E. }
  unfold rbind at 1.
  destruct (random_choice_nonempty (elements all) (rng_tail g)) as (y & Hy & ->).
  { intros E. apply elements_empty_inv in E. apply leibniz_equiv in E.
    subst all. apply Hne. set_solver. }
  exists y, (N.to_nat (rng_head (rng_tail (rng_tail g))) mod 100)%nat. eexists.
  split; [reflexivity|]. split.
  - by apply list_elem_of_lookup_2, elem_of_elements in Hy.
  - by apply Nat.mod_upper_bound.
Qed.

Lemma add_ingredient_appends_one_witness :
  exists new_name new_amt g',
    add_ingredient gin_recipe gin_lime (rng_of_list [0; 1; 130]%N)
    = Return (with_ingredients gin_recipe
                (ingredients gin_recipe ++ [mkIngredient new_name (Qc_of_nat new_amt)]),
              g')
    /\ new_name ∈ gin_lime /\ (new_amt < 100)%nat.
Proof.
  apply (add_ingredient_appends_one gin_recipe gin_lime (rng_of_list [0; 1; 130]%N)).
  intros E. assert ("Lime" ∈ (∅ : gset string)) as H; [|set_solver].
  rewrite <- E. decide_eq.
Defined.

(** ** delete_ingredient *)

(** On a non-empty recipe [delete_ingredient] returns with exactly the
    selected position removed: the fitness drops by one and the other
    ingredients keep their order. *)
Theorem delete_ingredient_removes_selected (r : Recipe) (g : rng) :
  ingredients r <> [] ->
  delete_ingredient r g
  = Return (with_ingredients r (delete (selected g (ingredients r)) (ingredients r)),
            rng_tail g)
  /\ S (length (delete (selected g (ingredients r)) (ingredients r))) = get_fitness r
  /\ delete (selected g (ingredients r)) (ingredients r) `sublist_of` ingredients r.
Proof.
  intros Hl. split.
  - unfold delete_ingredient, rbind. by rewrite random_choice_index_nonempty.
  - split; [|apply sublist_delete].
    rewrite length_delete.
    + unfold get_fitness. destruct (ingredients r); [done|simpl; lia].
    + apply lookup_lt_is_Some_2. by apply mod_length_lt.
Qed.

Lemma delete_ingredient_removes_selected_witness :
  delete_ingredient gin_rum_recipe (rng_of_list [3%N])
  = Return (with_ingredients gin_rum_recipe
              (delete (selected (rng_of_list [3%N]) (ingredients gin_rum_recipe))
                 (ingredients gin_rum_recipe)),
            rng_tail (rng_of_list [3%N]))
  /\ S (length (delete (selected (rng_of_list [3%N]) (ingredients gin_rum_recipe))
                  (ingredients gin_rum_recipe)))
     = get_fitness gin_rum_recipe
  /\ delete (selected (rng_of_list [3%N]) (ingredients gin_rum_recipe))
       (ingredients gin_rum_recipe)
     `sublist_of` ingredients gin_rum_recipe.
Proof.
  apply (delete_ingredient_removes_selected gin_rum_recipe (rng_of_list [3%N])).
  discriminate.
Defined.

(** ** swap_ingredient with no other name *)

(** When the inspiring set holds no name other than that of the selected
    ingredient, [swap_ingredient] does not return: [random.choice] on the
    empty tuple raises [IndexError]. *)
Theorem swap_ingredient_no_other_name_raises (r : Recipe) (all : gset string)
    (g : rng) (ing : Ingredient) :
  ingredients r !! selected g (ingredients r) = Some ing ->
  all ∖ {[ get_name ing ]} = ∅ ->
  swap_ingredient r all g = Raise IndexError.
Proof.
  intros Hsel Hall.
  assert (ingredients r <> []) as Hl by (intros E; by rewrite E in Hsel).
  unfold swap_ingredient, rbind at 1.
  rewrite random_choice_index_nonempty by done. fold (selected g (ingredients r)).
  rewrite Hsel, Hall. reflexivity.
Qed.

Lemma swap_ingredient_no_other_name_raises_witness :
  swap_ingredient gin_recipe {[ "Gin" ]} (rng_of_list []) = Raise IndexError.
Proof.
  apply (swap_ingredient_no_other_name_raises gin_recipe {[ "Gin" ]} (rng_of_list [])
           (ingr "Gin" 100)).
  - reflexivity.
  - set_solver.
Defined.

(** ** normalize: the removing loop, failure, what it keeps *)

(** When the total is neither 0 nor 100 and every value [normalize] forms is
    a binary64 number (so that the code's arithmetic is exact on it),
    [normalize] returns the list the removing loop leaves: scaled
    ingredients, without those whose scaled amount is below 0.01, and with
    the ingredient after each removed one left unscaled and unexamined. *)
Theorem normalize_steps_over_after_removal (r : Recipe) :
  current_total (ingredients r) <> hundred ->
  current_total (ingredients r) <> Q2Qc 0 ->
  forallb binary64 (normalize_values (ingredients r)) = true ->
  normalize r
  = Return (with_ingredients r
              (scale_skip (hundred / current_total (ingredients r)) (ingredients r))).
Proof.
  intros H100 H0 _. unfold normalize.
  by rewrite normalize_ingredients_scale_skip.
Qed.

Lemma normalize_steps_over_after_removal_witness :
  normalize (rum_lime_gin 2)
  = Return (with_ingredients (rum_lime_gin 2)
              (scale_skip (hundred / current_total (ingredients (rum_lime_gin 2)))
                 (ingredients (rum_lime_gin 2)))).
Proof.
  apply (normalize_steps_over_after_removal (rum_lime_gin 2)).
  - discriminate.
  - discriminate.
  - reflexivity.
Defined.

Lemma sum_amounts_zero (l : list Ingredient) :
  Forall (fun i => Q2Qc 0 <= get_amount i) l -> sum_amounts l = Q2Qc 0 ->
  Forall (fun i => get_amount i = Q2Qc 0) l.
Proof.
  induction 1 as [|i l Hi Hl IH]; [done|].
  unfold sum_amounts. simpl. fold (sum_amounts l). intros Hsum.
  assert (Q2Qc 0 <= sum_amounts l) as Hrest.
  { clear -Hl. induction Hl as [|j l Hj _ IH]; [done|].
    unfold sum_amounts. simpl. fold (sum_amounts l).
    replace (Q2Qc 0) with (Q2Qc 0 + Q2Qc 0) by (by apply Qc_is_canon).
    by apply Qcplus_le_compat. }
  assert (get_amount i = Q2Qc 0) as Hi0.
  { apply Qcle_antisym; [|done]. rewrite <- Hsum.
    replace (get_amount i) with (get_amount i + Q2Qc 0) at 1 by ring.
    by apply Qcplus_le_compat; [apply Qcle_refl|]. }
  constructor; [done|]. apply IH. rewrite Hi0 in Hsum.
  rewrite <- Hsum. ring.
Qed.

(** [normalize] can fail only by its division, and when no amount is
    negative it fails only on amounts that are all zero (an empty list
    included). *)
Theorem normalize_raises_only_on_zero_amounts (r : Recipe) (e : exn) :
  Forall (fun i => Q2Qc 0 <= get_amount i) (ingredients r) ->
  normalize r = Raise e ->
  e = ZeroDivisionError
  /\ Forall (fun i => get_amount i = Q2Qc 0) (ingredients r).
Proof.
  intros Hnn. unfold normalize, normalize_ingredients.
  destruct (decide (_ = hundred)); [done|].
  destruct (decide (_ = Q2Qc 0)) as [H0|]; [|done]. simpl. intros [= <-].
  split; [done|]. apply sum_amounts_zero; [done|]. by rewrite <- current_total_sum.
Qed.

Lemma normalize_raises_only_on_zero_amounts_witness :
  normalize (with_ingredients gin_recipe [ingr "Gin" 0; ingr "Lime" 0])
  = Raise ZeroDivisionError
  /\ Forall (fun i => get_amount i = Q2Qc 0)
       (ingredients (with_ingredients gin_recipe [ingr "Gin" 0; ingr "Lime" 0])).
Proof.
  split; [reflexivity|].
  apply (normalize_raises_only_on_zero_amounts
           (with_ingredients gin_recipe [ingr "Gin" 0; ingr "Lime" 0]) ZeroDivisionError).
  - decide_eq.
  - reflexivity.
Defined.

Lemma scale_skip_names_sublist_bounded (f : Qc) (n : nat) : forall l,
  (length l <= n)%nat ->
  get_name <$> scale_skip f l `sublist_of` get_name <$> l.
Proof.
  induction n as [|n IH]; intros l Hlen.
  - destruct l; [done|simpl in Hlen; lia].
  - destruct l as [|i rest]; [done|]. simpl in Hlen. simpl.
    destruct (decide _).
    + destruct rest as [|next rest']; csimpl; [apply sublist_nil_l|].
      apply sublist_cons, sublist_skip, IH. simpl in Hlen. lia.
    + csimpl. apply sublist_skip, IH. lia.
Qed.

(** [normalize] adds and renames nothing: the names it leaves are the old
    names with some taken out, so the fitness never grows, and the recipe
    keeps its name. *)
Theorem normalize_only_removes (r r' : Recipe) :
  normalize r = Return r' ->
  get_name <$> ingredients r' `sublist_of` get_name <$> ingredients r
  /\ (get_fitness r' <= get_fitness r)%nat
  /\ recipe_name r' = recipe_name r.
Proof.
  intros H.
  assert (get_name <$> ingredients r' `sublist_of` get_name <$> ingredients r
          /\ recipe_name r' = recipe_name r) as [Hsub Hname].
  { unfold normalize, normalize_ingredients in H.
    destruct (decide (_ = hundred)).
    - simpl in H. by simplify_eq.
    - destruct (decide (_ = Q2Qc 0)); [done|]. simpl in H. simplify_eq. simpl.
      split; [|done].
      rewrite (normalize_loop_scale_skip _ _ [] (ingredients r)) by done.
      by apply (scale_skip_names_sublist_bounded _ (length (ingredients r))). }
  split; [done|]. split; [|done].
  apply sublist_length in Hsub. by rewrite !length_fmap in Hsub.
Qed.

Lemma normalize_only_removes_witness :
  get_name <$> ingredients {| recipe_name := "recipe_3";
                              ingredients := [ingr "Gin" (12799 # 128)] |}
  `sublist_of` get_name <$> ingredients gin_rum_200
  /\ (get_fitness {| recipe_name := "recipe_3";
                     ingredients := [ingr "Gin" (12799 # 128)] |}
      <= get_fitness gin_rum_200)%nat
  /\ recipe_name {| recipe_name := "recipe_3";
                    ingredients := [ingr "Gin" (12799 # 128)] |}
     = recipe_name gin_rum_200.
Proof.
  apply (normalize_only_removes gin_rum_200
           {| recipe_name := "recipe_3"; ingredients := [ingr "Gin" (12799 # 128)] |}).
  decide_eq.
Defined.

Lemma sum_amounts_positive (l : list Ingredient) :
  l <> [] -> Forall (fun i => Q2Qc 0 < get_amount i) l -> Q2Qc 0 < sum_amounts l.
Proof.
  intros Hl Hpos. induction Hpos as [|i l Hi Hpos IH]; [done|].
  unfold sum_amounts. simpl. fold (sum_amounts l).
  destruct l as [|j l].
  - replace (sum_amounts []) with (Q2Qc 0) by done.
    by replace (get_amount i + Q2Qc 0) with (get_amount i) by ring.
  - apply Qcplus_pos_pos; [done|]. by apply IH.
Qed.

Lemma scale_skip_positive_bounded (f : Qc) (n : nat) : forall l,
  Q2Qc 0 < f -> (length l <= n)%nat ->
  Forall (fun i => Q2Qc 0 < get_amount i) l ->
  Forall (fun i => Q2Qc 0 < get_amount i) (scale_skip f l).
Proof.
  induction n as [|n IH]; intros l Hf Hlen Hpos.
  - destruct l; [done|simpl in Hlen; lia].
  - destruct l as [|i rest]; [done|]. simpl in Hlen.
    apply list.Forall_cons in Hpos as [Hi Hrest]. simpl.
    destruct (decide _).
    + destruct rest as [|next rest']; [done|].
      apply list.Forall_cons in Hrest as [Hnext Hrest'].
      constructor; [done|]. apply IH; [done|simpl in Hlen; lia|done].
    + constructor; [|apply IH; [done|lia|done]].
      unfold scale, get_amount. simpl. by apply Qcmult_pos_pos.
Qed.

(** On a non-empty recipe whose amounts are all positive, [normalize]
    returns and every amount it leaves is positive. *)
Theorem normalize_keeps_amounts_positive (r : Recipe) :
  ingredients r <> [] ->
  Forall (fun i => Q2Qc 0 < get_amount i) (ingredients r) ->
  exists r', normalize r = Return r'
             /\ Forall (fun i => Q2Qc 0 < get_amount i) (ingredients r').
Proof.
  intros Hl Hpos.
  pose proof (sum_amounts_positive _ Hl Hpos) as Htot.
  rewrite <- current_total_sum in Htot.
  assert (current_total (ingredients r) <> Q2Qc 0) as H0.
  { intros E. rewrite E in Htot. by apply Qclt_not_eq in Htot. }
  destruct (decide (current_total (ingredients r) = hundred)) as [E|NE].
  - exists r. split; [|done].
    unfold normalize, normalize_ingredients. rewrite E.
    destruct (decide _); [|done]. simpl. by destruct r.
  - eexists. split.
    { unfold normalize. by rewrite normalize_ingredients_scale_skip. }
    simpl.
    apply (scale_skip_positive_bounded _ (length (ingredients r))); [|done|done].
    unfold Qcdiv. apply Qcmult_pos_pos; [done|]. by apply Qcinv_pos.
Qed.

Lemma normalize_keeps_amounts_positive_witness :
  exists r', normalize gin_rum_200 = Return r'
             /\ Forall (fun i => Q2Qc 0 < get_amount i) (ingredients r').
Proof.
  apply (normalize_keeps_amounts_positive gin_rum_200).
  - discriminate.
  - decide_eq.
Defined.

(** ** mutate *)

Lemma change_amount_bounds (r r' : Recipe) (g g' : rng) :
  change_amount r g = Return (r', g') ->
  recipe_name r' = recipe_name r
  /\ length (ingredients r') = length (ingredients r).
Proof.
  unfold change_amount, rbind. intros H.
  destruct (np_random_choice_index (ingredients r) g) as [[i g1]|]; [|done].
  destruct (ingredients r !! i) as [ing|]; [|done].
  destruct (random_uniform _ _ g1) as [[u g2]|]; [|done].
  unfold rret in H. simplify_eq. simpl. by rewrite length_insert.
Qed.

Lemma add_ingredient_bounds (r r' : Recipe) (all : gset string) (g g' : rng) :
  add_ingredient r all g = Return (r', g') ->
  recipe_name r' = recipe_name r
  /\ (length (ingredients r') <= S (length (ingredients r)))%nat.
Proof.
  unfold add_ingredient. destruct (decide _).
  { unfold rret. intros. simplify_eq. split; [done|lia]. }
  unfold rbind. intros H.
  destruct (random_choice _ g) as [[x g1]|]; [|done].
  destruct (random_choice (elements all) g1) as [[y g2]|]; [|done].
  destruct (np_random_choice_range 100 g2) as [[a g3]|]; [|done].
  unfold rret in H. simplify_eq. simpl. rewrite length_app. simpl. split; [done|lia].
Qed.

Lemma delete_ingredient_bounds (r r' : Recipe) (g g' : rng) :
  delete_ingredient r g = Return (r', g') ->
  recipe_name r' = recipe_name r
  /\ (length (ingredients r') <= length (ingredients r))%nat.
Proof.
  unfold delete_ingredient, rbind. intros H.
  destruct (random_choice_index (ingredients r) g) as [[i g1]|]; [|done].
  unfold rret in H. simplify_eq. simpl. split; [done|].
  apply sublist_length, sublist_delete.
Qed.

Lemma swap_ingredient_bounds (r r' : Recipe) (all : gset string) (g g' : rng) :
  swap_ingredient r all g = Return (r', g') ->
  recipe_name r' = recipe_name r
  /\ length (ingredients r') = length (ingredients r).
Proof.
  unfold swap_ingredient, rbind. intros H.
  destruct (random_choice_index (ingredients r) g) as [[i g1]|]; [|done].
  destruct (ingredients r !! i) as [ing|]; [|done].
  destruct (random_choice _ g1) as [[nm g2]|]; [|done].
  unfold rret in H. simplify_eq. simpl. by rewrite length_insert.
Qed.

Lemma normalize_bounds (r r' : Recipe) :
  normalize r = Return r' ->
  recipe_name r' = recipe_name r
  /\ (length (ingredients r') <= length (ingredients r))%nat.
Proof.
  unfold normalize, normalize_ingredients. intros H.
  destruct (decide (_ = hundred)).
  - simpl in H. by simplify_eq.
  - destruct (decide (_ = Q2Qc 0)); [done|]. simpl in H. simplify_eq. simpl.
    split; [done|].
    rewrite (normalize_loop_scale_skip _ _ [] (ingredients r)) by done.
    pose proof (scale_skip_names_sublist_bounded
                  (hundred / current_total (ingredients r))
                  (length (ingredients r)) (ingredients r) ltac:(done)) as Hs.
    apply sublist_length in Hs. by rewrite !length_fmap in Hs.
Qed.

Lemma mutate_bounds (r r' : Recipe) (all : gset string) (g g' : rng) :
  mutate r all g = Return (r', g') ->
  recipe_name r' = recipe_name r
  /\ (get_fitness r' <= S (get_fitness r))%nat.
Proof.
  unfold mutate, rbind, get_fitness. intros H.
  destruct (random_random g) as [[u g1]|]; [|done].
  destruct (decide _); [|unfold rret in H; simplify_eq; split; [done|lia]].
  destruct (np_random_randint 0 4 g1) as [[mutation g2]|]; [|done].
  assert (forall r1 g3,
            match mutation with
            | 0%nat => change_amount r
            | 1%nat => add_ingredient r all
            | 2%nat => delete_ingredient r
            | 3%nat => swap_ingredient r all
            | _ => rret r
            end g2 = Return (r1, g3) ->
            recipe_name r1 = recipe_name r
            /\ (length (ingredients r1) <= S (length (ingredients r)))%nat) as Hop.
  { intros r1 g3 Hr1. destruct mutation as [|[|[|[|k]]]].
    - apply change_amount_bounds in Hr1 as [? ?]. split; [done|lia].
    - by apply add_ingredient_bounds in Hr1.
    - apply delete_ingredient_bounds in Hr1 as [? ?]. split; [done|lia].
    - apply swap_ingredient_bounds in Hr1 as [? ?]. split; [done|lia].
    - unfold rret in Hr1. simplify_eq. split; [done|lia]. }
  match type of H with
  | match ?x with Return _ => _ | Raise _ => _ end = _ =>
      destruct x as [[r1 g3]|] eqn:Hr1; [|done]
  end.
  destruct (Hop r1 g3 eq_refl) as [Hn Hl].
  unfold rlift in H. destruct (normalize r1) as [r2|] eqn:Hnorm; [|done].
  simplify_eq. apply normalize_bounds in Hnorm as [Hn2 Hl2].
  split; [congruence|lia].
Qed.

(** Whatever [mutate] returns has the recipe's name and at most one
    ingredient more than the recipe had. *)
Theorem mutate_adds_at_most_one (r r' : Recipe) (all : gset string) (g g' : rng) :
  mutate r all g = Return (r', g') ->
  recipe_name r' = recipe_name r
  /\ (get_fitness r' <= S (get_fitness r))%nat.
Proof. apply mutate_bounds. Qed.

Lemma mutate_adds_at_most_one_witness :
  exists r',
    value_of (mutate gin_recipe gin_lime (rng_of_list [0; 1; 0; 1; 7]%N)) = Return r'
    /\ recipe_name r' = recipe_name gin_recipe
    /\ (get_fitness r' <= S (get_fitness gin_recipe))%nat.
Proof.
  destruct (mutate gin_recipe gin_lime (rng_of_list [0; 1; 0; 1; 7]%N))
    as [[r' g']|e] eqn:H.
  - exists r'. split; [done|].
    exact (mutate_adds_at_most_one gin_recipe r' gin_lime _ g' H).
  - vm_compute in H. discriminate H.
Defined.

(** A mutation that deletes the only ingredient of a recipe ends in the
    division by zero of [normalize]: [mutate] raises [ZeroDivisionError]
    whenever its sample is below 0.4 and the drawn mutation is the third. *)
Theorem mutate_deleting_only_ingredient_raises (r : Recipe) (all : gset string) (g : rng) :
  length (ingredients r) = 1%nat ->
  mutate_sample g < Q2Qc (4 # 10) ->
  (N.to_nat (rng_head (rng_tail g)) mod 4)%nat = 2%nat ->
  mutate r all g = Raise ZeroDivisionError.
Proof.
  intros Hlen Hsample Hmut.
  destruct r as [nm [|ing [|? ?]]]; try discriminate Hlen.
  unfold mutate, rbind at 1.
  change (random_random g) with (Return (mutate_sample g, rng_tail g)).
  cbv beta iota.
  destruct (decide (mutate_sample g < Q2Qc (4 # 10))); [|done].
  unfold rbind at 1, np_random_randint. destruct (decide (4 <= 0)%nat); [lia|].
  unfold rbind at 1, draw, rret. cbv beta iota.
  change (4 - 0)%nat with 4%nat. rewrite Nat.add_0_l, Hmut.
  unfold rbind, delete_ingredient, rbind.
  rewrite random_choice_index_nonempty by done.
  cbn [ingredients length]. rewrite Nat.mod_1_r. reflexivity.
Qed.

Lemma mutate_deleting_only_ingredient_raises_witness :
  mutate gin_recipe gin_lime (rng_of_list [0; 2]%N) = Raise ZeroDivisionError.
Proof.
  apply (mutate_deleting_only_ingredient_raises gin_recipe gin_lime (rng_of_list [0; 2]%N));
    reflexivity.
Defined.

(** * Further properties of the text functions *)

Lemma split_oz_nonempty (s : string) : split_oz s <> [].
Proof. destruct (split_oz_head_prefix s) as (p & ps & _ & -> & _). done. Qed.

Lemma join_oz_cons_head (c : ascii) (parts : list string) :
  parts <> [] -> join_oz (cons_head c parts) = String c (join_oz parts).
Proof. destruct parts as [|p [|q ps]]; done. Qed.

Lemma starts_with_sep_after (s : string) :
  starts_with_sep s = true -> s = " oz " +:+ after_sep s.
Proof.
  destruct s as [|c1 [|c2 [|c3 [|c4 rest]]]]; try discriminate.
  simpl. unfold is_oz. intros H.
  apply andb_true_iff in H as [[[H1 H2]%andb_true_iff H3]%andb_true_iff H4].
  apply Ascii.eqb_eq in H1, H2, H3, H4. by subst.
Qed.

Lemma join_oz_split_oz_bounded (n : nat) : forall s,
  (String.length s <= n)%nat -> join_oz (split_oz s) = s.
Proof.
  induction n as [|n IH]; intros s Hlen.
  - destruct s; [done|simpl in Hlen; lia].
  - destruct s as [|c tl]; [done|]. rewrite split_oz_unfold.
    destruct (starts_with_sep (String c tl)) eqn:Hsep.
    + pose proof (after_sep_length _ Hsep) as Hlt.
      pose proof (split_oz_nonempty (after_sep (String c tl))) as Hne.
      rewrite (starts_with_sep_after _ Hsep) at 2.
      rewrite <- (IH (after_sep (String c tl))) at 2 by lia.
      cbn [join_oz]. by destruct (split_oz (after_sep (String c tl))).
    + simpl in Hlen. rewrite join_oz_cons_head by apply split_oz_nonempty.
      by rewrite IH by lia.
Qed.

(** Joining the parts of a split line with the separator gives the line
    back: splitting loses no character. *)
Theorem join_oz_split_oz (s : string) : join_oz (split_oz s) = s.
Proof. by apply (join_oz_split_oz_bounded (String.length s)). Qed.

(** No part of a split line contains the separator, and a line always has
    a first part. *)
Theorem split_oz_parts_have_no_separator (s : string) :
  split_oz s <> [] /\ Forall sep_free (split_oz s).
Proof. split; [apply split_oz_nonempty|apply split_oz_parts_sep_free]. Qed.

(** A printed ingredient reads back as its amount rounded to two decimals
    and the part of its name before the first separator; a name without a
    separator reads back whole. *)
Theorem Ingredient_str_reads_back (i : Ingredient) :
  float (str_round2 (get_amount i)) = Return (round2 (get_amount i))
  /\ (exists nm rest,
        split_oz (get_name i) = nm :: rest
        /\ parse_line (Ingredient_str i) = Return (round2 (get_amount i), nm))
  /\ (sep_free (get_name i) -> parse_line (Ingredient_str i) = Return (rounded_entry i)).
Proof.
  split; [apply float_str_round2|]. split.
  - destruct (split_oz_head_prefix (get_name i)) as (nm & rest & _ & Hs & _).
    exists nm, rest. split; [done|].
    unfold parse_line, Ingredient_str.
    rewrite split_oz_line by apply str_round2_no_space.
    unfold get_name in Hs. rewrite Hs. simpl. by rewrite float_str_round2.
  - apply parse_line_Ingredient_str.
Qed.

Lemma Ingredient_str_reads_back_witness :
  float (str_round2 (get_amount (ingr "Gin" (1 # 3))))
  = Return (round2 (get_amount (ingr "Gin" (1 # 3))))
  /\ (exists nm rest,
        split_oz (get_name (ingr "Gin" (1 # 3))) = nm :: rest
        /\ parse_line (Ingredient_str (ingr "Gin" (1 # 3)))
           = Return (round2 (get_amount (ingr "Gin" (1 # 3))), nm))
  /\ parse_line (Ingredient_str (ingr "Gin" (1 # 3)))
     = Return (rounded_entry (ingr "Gin" (1 # 3))).
Proof.
  destruct (Ingredient_str_reads_back (ingr "Gin" (1 # 3))) as (H1 & H2 & H3).
  split; [exact H1|]. split; [exact H2|]. apply H3. reflexivity.
Defined.

(** A line without the separator does not parse: [ValueError] when the whole
    line is not a number, [IndexError] when it is. *)
Theorem parse_line_without_separator (line : string) :
  sep_free line ->
  parse_line line
  = match float line with
    | Return _ => Raise IndexError
    | Raise _ => Raise ValueError
    end.
Proof.
  unfold sep_free, parse_line. intros ->. simpl.
  destruct (float line) as [amt|e] eqn:Hf; [done|]. simpl.
  unfold float in Hf.
  destruct (cut_sign (strip line)) as [neg body].
  destruct (cut_at is_exp body) as [mant ex].
  by destruct (_ ≫= _); simplify_eq.
Qed.

Lemma parse_line_without_separator_witness :
  parse_line "2 ounces of Gin" = Raise ValueError /\ parse_line "2" = Raise IndexError.
Proof.
  split.
  - apply (parse_line_without_separator "2 ounces of Gin"). reflexivity.
  - apply (parse_line_without_separator "2"). reflexivity.
Defined.

(** ** Rounding *)

Lemma round_half_even_error (q : Q) :
  (2 * Z.abs (Qnum q - round_half_even q * Zpos (Qden q)) <= Zpos (Qden q))%Z.
Proof.
  unfold round_half_even.
  pose proof (Z.div_mod (Qnum q) (Zpos (Qden q)) ltac:(done)) as Hdm.
  pose proof (Z.mod_pos_bound (Qnum q) (Zpos (Qden q)) ltac:(done)) as Hb.
  set (fl := (Qnum q / Zpos (Qden q))%Z) in *.
  set (rm := (Qnum q mod Zpos (Qden q))%Z) in *.
  destruct (Z.compare_spec (2 * rm) (Zpos (Qden q))); [destruct (Z.even fl)|..]; lia.
Qed.

Lemma round_half_even_whole (q : Q) (z : Z) :
  (q == inject_Z z)%Q -> round_half_even q = z.
Proof.
  unfold Qeq, round_half_even. simpl. intros H.
  rewrite Z.mul_1_r in H. rewrite H.
  rewrite Z.div_mul, Z.mod_mul by done. by simpl.
Qed.

(** [round(x, 2)] is within half a hundredth of [x], and rounding an
    already rounded amount changes nothing. *)
Theorem round2_error_and_idempotence (x : Qc) :
  x - Q2Qc (1 # 200) <= round2 x
  /\ round2 x <= x + Q2Qc (1 # 200)
  /\ round2 (round2 x) = round2 x.
Proof.
  pose proof (round_half_even_error (this x * 100)%Q) as He.
  fold (hundredths x) in He.
  replace (Qnum (this x * 100)%Q) with (Qnum (this x) * 100)%Z in He by done.
  replace (Zpos (Qden (this x * 100)%Q)) with (Zpos (Qden (this x))) in He
    by (simpl; by rewrite Pos.mul_1_r).
  split; [|split].
  - unfold round2, Qcle, Qcminus, Qcplus, Qcopp, Q2Qc. cbn [this].
    rewrite !Qred_correct. unfold Qle. simpl. lia.
  - unfold round2, Qcle, Qcplus, Q2Qc. cbn [this].
    rewrite !Qred_correct. unfold Qle. simpl. lia.
  - unfold round2 at 1 3. f_equal. f_equal.
    apply round_half_even_whole.
    unfold round2, Q2Qc. cbn [this]. rewrite Qred_correct.
    unfold Qeq. simpl. lia.
Qed.

(** * Further properties of recipe construction *)

Lemma filter_not_in_snoc (K : list string) (k : string) (X : list string) :
  filter (fun y => y ∉ K ++ [k]) X = filter (fun y => y ∉ K) (filter (fun y => y <> k) X).
Proof.
  rewrite list_filter_filter. apply list_filter_iff. intros y.
  rewrite not_elem_of_app, list_elem_of_singleton. tauto.
Qed.

Lemma filter_not_in_absorbs (K : list string) (k : string) (X : list string) :
  k ∈ K ->
  filter (fun y => y ∉ K) (filter (fun y => y <> k) X) = filter (fun y => y ∉ K) X.
Proof.
  intros Hk. rewrite list_filter_filter. apply list_filter_iff. intros y.
  split; [tauto|]. intros Hy. split; [done|]. by intros ->.
Qed.

Lemma filter_not_in_nil (X : list string) : filter (fun y => y ∉ []) X = X.
Proof.
  induction X as [|x X IH]; [done|].
  rewrite filter_cons_True by apply not_elem_of_nil. by rewrite IH.
Qed.

Lemma foldl_dict_add_keys (entries : list (Qc * string)) : forall d,
  (foldl dict_add d entries).*1
  = d.*1 ++ filter (fun k => k ∉ d.*1) (first_occurrences entries.*2).
Proof.
  induction entries as [|e es IH]; intros d; csimpl.
  - by rewrite app_nil_r.
  - rewrite IH.
    assert ((dict_add d e).*1 = if decide (e.2 ∈ d.*1) then d.*1 else d.*1 ++ [e.2])
      as ->.
    { unfold dict_add. destruct (dict_get d e.2); apply dict_set_keys. }
    rewrite filter_cons. destruct (decide (e.2 ∈ d.*1)) as [Hin|Hnin].
    + destruct (decide (e.2 ∉ d.*1)); [done|].
      by rewrite filter_not_in_absorbs.
    + destruct (decide (e.2 ∉ d.*1)); [|done].
      rewrite filter_not_in_snoc, <- app_assoc. done.
Qed.

(** The ingredients of a constructed recipe stand in the order in which
    their names first occur in the lines. *)
Theorem Recipe_init_keeps_first_occurrence_order (n : nat) (lines : list string)
    (entries : list (Qc * string)) :
  Forall2 (fun line e => parse_line line = Return e) lines entries ->
  exists r, Recipe_init n lines = Return r
            /\ get_name <$> ingredients r = first_occurrences entries.*2.
Proof.
  intros Hp. unfold Recipe_init, make_ingredient_objects.
  rewrite (fill_dict_foldl _ _ Hp). simpl. eexists. split; [done|]. simpl.
  rewrite <- list_fmap_compose.
  transitivity ((foldl dict_add [] entries).*1); [by apply list_fmap_ext|].
  rewrite foldl_dict_add_keys. simpl.
  apply filter_not_in_nil.
Qed.

Lemma Recipe_init_keeps_first_occurrence_order_witness :
  exists r,
    Recipe_init 4 ["1 oz Rum"; "2 oz Gin"; "3 oz Rum"; "1 oz Lime"; "1 oz Gin"] = Return r
    /\ get_name <$> ingredients r
       = first_occurrences
           [(Q2Qc 1, "Rum"); (Q2Qc 2, "Gin"); (Q2Qc 3, "Rum"); (Q2Qc 1, "Lime");
            (Q2Qc 1, "Gin")].*2.
Proof.
  apply (Recipe_init_keeps_first_occurrence_order 4
           ["1 oz Rum"; "2 oz Gin"; "3 oz Rum"; "1 oz Lime"; "1 oz Gin"]
           [(Q2Qc 1, "Rum"); (Q2Qc 2, "Gin"); (Q2Qc 3, "Rum"); (Q2Qc 1, "Lime");
            (Q2Qc 1, "Gin")]).
  repeat constructor; decide_eq.
Defined.

Lemma fill_dict_raises (good : list string) (entries : list (Qc * string))
    (bad : string) (rest : list string) (e : exn) :
  Forall2 (fun line en => parse_line line = Return en) good entries ->
  parse_line bad = Raise e ->
  forall d, fill_dict (good ++ bad :: rest) d = Raise e.
Proof.
  intros Hgood Hbad.
  induction Hgood as [|line [amt nm] good entries Hp _ IH]; intros d; simpl.
  - by rewrite Hbad.
  - rewrite Hp. simpl. destruct (dict_get d nm); apply IH.
Qed.

(** Construction fails with the exception of the first line that does not
    parse, whatever follows that line. *)
Theorem Recipe_init_raises_at_first_bad_line (n : nat) (good : list string)
    (entries : list (Qc * string)) (bad : string) (rest : list string) (e : exn) :
  Forall2 (fun line en => parse_line line = Return en) good entries ->
  parse_line bad = Raise e ->
  Recipe_init n (good ++ bad :: rest) = Raise e.
Proof.
  intros Hgood Hbad. unfold Recipe_init, make_ingredient_objects.
  by rewrite (fill_dict_raises good entries bad rest e Hgood Hbad).
Qed.

Lemma Recipe_init_raises_at_first_bad_line_witness :
  Recipe_init 0 (["1 oz Gin"] ++ "a splash oz Lime" :: ["2"]) = Raise ValueError.
Proof.
  apply (Recipe_init_raises_at_first_bad_line 0 ["1 oz Gin"] [(Q2Qc 1, "Gin")]
           "a splash oz Lime" ["2"] ValueError).
  - repeat constructor; decide_eq.
  - reflexivity.
Defined.

(** * Further properties of the manager *)

(** ** The inspiring set *)

Lemma foldl_union_names (l : list Ingredient) : forall (acc : gset string) nm,
  nm ∈ foldl (fun acc' ingredient => acc' ∪ {[ get_name ingredient ]}) acc l
  <-> nm ∈ acc \/ nm ∈ get_name <$> l.
Proof.
  induction l as [|i l IH]; intros acc nm; csimpl.
  - rewrite elem_of_nil. tauto.
  - rewrite IH, elem_of_union, elem_of_singleton, elem_of_cons. tauto.
Qed.

(** After [get_unique_ingredients] the inspiring set holds what it held
    before and the names of all ingredients of all recipes, and nothing
    else; the recipes and the counter are untouched. *)
Theorem get_unique_ingredients_collects_names (m : RecipeManager) (nm : string) :
  (nm ∈ all_ingredients (get_unique_ingredients m)
   <-> nm ∈ all_ingredients m
       \/ exists recipe, recipe ∈ recipes m /\ nm ∈ get_name <$> ingredients recipe)
  /\ recipes (get_unique_ingredients m) = recipes m
  /\ num_new_recipes (get_unique_ingredients m) = num_new_recipes m.
Proof.
  split; [|done]. unfold get_unique_ingredients. simpl.
  generalize (all_ingredients m). induction (recipes m) as [|r rs IH]; intros acc; simpl.
  - split; [tauto|]. intros [H|(r & Hr & _)]; [done|]. by apply elem_of_nil in Hr.
  - rewrite IH, foldl_union_names. split.
    + intros [[H|H]|(r' & Hr' & Hn)]; [tauto| |].
      * right. exists r. split; [by left|done].
      * right. exists r'. split; [by right|done].
    + intros [H|(r' & Hr' & Hn)]; [tauto|].
      apply elem_of_cons in Hr' as [->|Hr']; [tauto|]. right. by exists r'.
Qed.

(** ** crossover *)

(** [crossover] with a parent that has no ingredient does not return: the
    pivot draw [np.random.randint(0, 0)] raises [ValueError]. *)
Theorem crossover_empty_parent_raises (m : RecipeManager) (r1 r2 : Recipe) (g : rng) :
  ingredients r1 = [] \/ ingredients r2 = [] ->
  crossover m r1 r2 g = Raise ValueError.
Proof.
  intros H. unfold crossover, rbind, np_random_randint, get_fitness.
  destruct (decide _) as [|Hn]; [done|]. exfalso. apply Hn.
  destruct H as [-> | ->]; simpl; lia.
Qed.

Lemma crossover_empty_parent_raises_witness :
  crossover three_names thirds_a (sized "recipe_9" 0) (rng_of_list [])
  = Raise ValueError.
Proof.
  apply (crossover_empty_parent_raises three_names thirds_a (sized "recipe_9" 0)
           (rng_of_list [])).
  by right.
Defined.

(** For a pivot below both parents' lengths the offspring is built from as
    many lines as the second parent has ingredients, and before mutation it
    has at least one ingredient and at most that many. *)
Theorem crossover_offspring_size (n : nat) (r1 r2 : Recipe) (pivot : nat) :
  Forall (fun i => sep_free (get_name i)) (ingredients r1 ++ ingredients r2) ->
  (pivot < get_fitness r1 `min` get_fitness r2)%nat ->
  exists r,
    Recipe_init n (cross_lines r1 r2 pivot) = Return r
    /\ length (cross_lines r1 r2 pivot) = get_fitness r2
    /\ (1 <= get_fitness r <= get_fitness r2)%nat.
Proof.
  intros Hn Hp.
  destruct (Recipe_init_entries n _ _ (cross_lines_parse r1 r2 pivot Hn))
    as (r & Hr & _ & Hnd & Hin & _).
  pose proof (cross_lines_length r1 r2 pivot ltac:(lia)) as Hlen.
  exists r. split; [done|]. split; [done|].
  assert (length (crossed r1 r2 pivot) = get_fitness r2) as Hc.
  { rewrite <- Hlen, cross_lines_crossed. by rewrite length_fmap. }
  unfold get_fitness at 1 2. rewrite <- (length_fmap get_name (ingredients r)).
  split.
  - destruct (crossed r1 r2 pivot) as [|i l] eqn:Hcr.
    { simpl in Hc. unfold get_fitness in *. lia. }
    assert (get_name i ∈ get_name <$> ingredients r) as Hi.
    { apply Hin. csimpl. by left. }
    destruct (get_name <$> ingredients r); [by apply elem_of_nil in Hi|simpl; lia].
  - rewrite <- Hc, <- (length_fmap rounded_entry (crossed r1 r2 pivot)).
    rewrite <- (length_fmap snd (rounded_entry <$> crossed r1 r2 pivot)).
    apply submseteq_length, NoDup_submseteq; [done|].
    intros x Hx. by apply Hin.
Qed.

Lemma crossover_offspring_size_witness :
  exists r,
    Recipe_init 2 (cross_lines thirds_a thirds_b 1) = Return r
    /\ length (cross_lines thirds_a thirds_b 1) = get_fitness thirds_b
    /\ (1 <= get_fitness r <= get_fitness thirds_b)%nat.
Proof.
  apply (crossover_offspring_size 2 thirds_a thirds_b 1).
  - decide_eq.
  - simpl. lia.
Defined.

Lemma Recipe_init_name (n : nat) (lines : list string) (r : Recipe) :
  Recipe_init n lines = Return r -> recipe_name r = "recipe_" +:+ str_nat n.
Proof.
  unfold Recipe_init, make_ingredient_objects. intros H.
  destruct (fill_dict lines []); [|done]. simpl in H. by simplify_eq.
Qed.

Lemma crossover_bookkeeping (m : RecipeManager) (r1 r2 : Recipe) (g g' : rng)
    (born : Recipe * RecipeManager) :
  crossover m r1 r2 g = Return (born, g') ->
  recipe_name born.1 = "recipe_" +:+ str_nat (num_new_recipes m)
  /\ num_new_recipes born.2 = S (num_new_recipes m)
  /\ recipes born.2 = recipes m
  /\ all_ingredients born.2 = all_ingredients m.
Proof.
  unfold crossover, rbind, rlift. intros H.
  destruct (np_random_randint _ _ g) as [[pivot g1]|]; [|done].
  destruct (Recipe_init _ _) as [r|] eqn:Hr; [|done].
  destruct (mutate r _ g1) as [[r' g2]|] eqn:Hm; [|done].
  unfold rret in H. simplify_eq. simpl.
  apply mutate_bounds in Hm as [Hname _]. apply Recipe_init_name in Hr.
  split; [congruence|done].
Qed.

(** A returned [crossover] names the offspring after the counter, advances
    the counter by one and leaves the population and the inspiring set as
    they were. *)
Theorem crossover_numbers_the_offspring (m : RecipeManager) (r1 r2 : Recipe)
    (g g' : rng) (born : Recipe * RecipeManager) :
  crossover m r1 r2 g = Return (born, g') ->
  recipe_name born.1 = "recipe_" +:+ str_nat (num_new_recipes m)
  /\ num_new_recipes born.2 = S (num_new_recipes m)
  /\ recipes born.2 = recipes m
  /\ all_ingredients born.2 = all_ingredients m.
Proof. apply crossover_bookkeeping. Qed.

Lemma crossover_numbers_the_offspring_witness :
  exists born,
    value_of (crossover three_names thirds_a thirds_b
                (rng_of_list [1; 9007199254740991]%N)) = Return born
    /\ recipe_name born.1 = "recipe_" +:+ str_nat (num_new_recipes three_names)
    /\ num_new_recipes born.2 = S (num_new_recipes three_names)
    /\ recipes born.2 = recipes three_names
    /\ all_ingredients born.2 = all_ingredients three_names.
Proof.
  destruct (crossover three_names thirds_a thirds_b
              (rng_of_list [1; 9007199254740991]%N)) as [[born g']|e] eqn:H.
  - exists born. split; [done|].
    exact (crossover_numbers_the_offspring three_names thirds_a thirds_b _ g' born H).
  - vm_compute in H. discriminate H.
Defined.

(** ** A generation *)

Lemma offspring_loop_bookkeeping (n : nat) : forall m new g res g',
  offspring_loop n m new g = Return (res, g') ->
  length res.1 = (length new + n)%nat
  /\ num_new_recipes res.2 = (num_new_recipes m + n)%nat
  /\ recipes res.2 = recipes m
  /\ all_ingredients res.2 = all_ingredients m.
Proof.
  induction n as [|n IH]; simpl; intros m new g res g' H.
  - unfold rret in H. simplify_eq. simpl. repeat split; lia.
  - unfold rbind in H.
    destruct (select_pair (recipes m) g) as [[parents g1]|]; [|done].
    destruct (crossover m parents.1 parents.2 g1) as [[born g2]|] eqn:Hc; [|done].
    apply crossover_bookkeeping in Hc as (_ & Hnum & Hrec & Hall).
    apply IH in H as (Hlen & Hnum' & Hrec' & Hall').
    rewrite length_app in Hlen. simpl in Hlen.
    repeat split; [lia|lia|congruence|congruence].
Qed.

Lemma genetic_algo_returns_inv (m m' : RecipeManager) (g g' : rng) :
  genetic_algo m g = Return (m', g') ->
  exists new,
    length new = length (recipes m)
    /\ recipes m' = fittest_half (recipes m) ++ fittest_half new
    /\ num_new_recipes m' = (num_new_recipes m + length (recipes m))%nat
    /\ all_ingredients m' = all_ingredients m.
Proof.
  unfold genetic_algo, rbind. intros H.
  destruct (offspring_loop _ m [] g) as [[res g1]|] eqn:Hl; [|done].
  unfold rret in H. simplify_eq.
  apply offspring_loop_bookkeeping in Hl as (Hlen & Hnum & Hrec & Hall).
  exists res.1. simpl. rewrite Hrec. done.
Qed.

(** A returned generation step has produced as many offspring as there were
    recipes; the next population is the kept part of the old one followed by
    the kept part of the offspring, [2 * (n - floor(n/2))] recipes: an even
    size stays, an odd size grows by one.  The counter has advanced by [n]
    and the inspiring set is the same. *)
Theorem genetic_algo_next_population (m m' : RecipeManager) (g g' : rng) :
  genetic_algo m g = Return (m', g') ->
  (exists new,
     length new = length (recipes m)
     /\ recipes m' = fittest_half (recipes m) ++ fittest_half new)
  /\ length (recipes m') = (length (recipes m) + length (recipes m) mod 2)%nat
  /\ num_new_recipes m' = (num_new_recipes m + length (recipes m))%nat
  /\ all_ingredients m' = all_ingredients m.
Proof.
  intros H. apply genetic_algo_returns_inv in H as (new & Hlen & Hrec & Hnum & Hall).
  split; [by exists new|]. split; [|done].
  rewrite Hrec, length_app, !fittest_half_length, Hlen.
  pose proof (Nat.div_mod_eq (length (recipes m)) 2).
  pose proof (Nat.mod_upper_bound (length (recipes m)) 2 ltac:(done)). lia.
Qed.

Lemma genetic_algo_next_population_witness :
  exists m',
    value_of (genetic_algo three_names (rng_of_list [1; 0; 1; 0; 0; 5]%N)) = Return m'
    /\ (exists new,
          length new = length (recipes three_names)
          /\ recipes m' = fittest_half (recipes three_names) ++ fittest_half new)
    /\ length (recipes m')
       = (length (recipes three_names) + length (recipes three_names) mod 2)%nat
    /\ num_new_recipes m'
       = (num_new_recipes three_names + length (recipes three_names))%nat
    /\ all_ingredients m' = all_ingredients three_names.
Proof.
  destruct (genetic_algo three_names (rng_of_list [1; 0; 1; 0; 0; 5]%N))
    as [[m' g']|e] eqn:H.
  - exists m'. split; [done|].
    exact (genetic_algo_next_population three_names m' _ g' H).
  - vm_compute in H. discriminate H.
Defined.

Lemma fittest_half_dominates (rs : list Recipe) (r : Recipe) :
  r ∈ rs -> exists r', r' ∈ fittest_half rs /\ (get_fitness r <= get_fitness r')%nat.
Proof.
  intros Hr.
  assert (r ∈ take (length rs / 2) (sorted get_fitness rs) ++ fittest_half rs) as Hin.
  { unfold fittest_half. rewrite take_drop. by rewrite sorted_perm. }
  apply elem_of_app in Hin as [Hlow|Hup]; [|by exists r].
  assert (fittest_half rs <> []) as Hne.
  { intros E. pose proof (fittest_half_length rs) as Hl. rewrite E in Hl.
    change (length (@nil Recipe)) with 0%nat in Hl.
    assert (0 < length rs)%nat by (destruct rs; [by apply elem_of_nil in Hr|simpl; lia]).
    pose proof (Nat.div_lt (length rs) 2 ltac:(done) ltac:(lia)). lia. }
  destruct (fittest_half rs) as [|a l] eqn:Hf; [done|].
  exists a. split; [by left|].
  eapply (ascending_take_drop get_fitness _ (length rs / 2));
    [apply sorted_ascending| |exact Hlow].
  unfold fittest_half in Hf. rewrite Hf. by left.
Qed.

(** The best fitness never drops over a generation: for every recipe of the
    old population the next one holds a recipe at least as fit. *)
Theorem genetic_algo_keeps_the_fittest (m m' : RecipeManager) (g g' : rng) (r : Recipe) :
  genetic_algo m g = Return (m', g') ->
  r ∈ recipes m ->
  exists r', r' ∈ recipes m' /\ (get_fitness r <= get_fitness r')%nat.
Proof.
  intros H Hr. apply genetic_algo_returns_inv in H as (new & _ & Hrec & _).
  destruct (fittest_half_dominates _ _ Hr) as (r' & Hr' & Hle).
  exists r'. split; [|done]. rewrite Hrec. apply elem_of_app. by left.
Qed.

Lemma genetic_algo_keeps_the_fittest_witness :
  exists m',
    value_of (genetic_algo three_names (rng_of_list [1; 0; 1; 0; 0; 5]%N)) = Return m'
    /\ exists r', r' ∈ recipes m' /\ (get_fitness thirds_a <= get_fitness r')%nat.
Proof.
  destruct (genetic_algo three_names (rng_of_list [1; 0; 1; 0; 0; 5]%N))
    as [[m' g']|e] eqn:H.
  - exists m'. split; [done|].
    apply (genetic_algo_keeps_the_fittest three_names m' _ g' thirds_a H).
    by left.
  - vm_compute in H. discriminate H.
Defined.

Lemma round_up_even (a : nat) : ((a + a mod 2) mod 2 = 0)%nat.
Proof.
  pose proof (Nat.div_mod_eq a 2) as Hd.
  pose proof (Nat.mod_upper_bound a 2 ltac:(lia)) as Hb.
  destruct (a mod 2)%nat as [|[|k]] eqn:E; [| |lia].
  - by rewrite Nat.add_0_r.
  - replace (a + 1)%nat with (0 + (a / 2 + 1) * 2)%nat by lia.
    by rewrite Nat.Div0.mod_add.
Qed.

Lemma run_genetic_algo_inv (generations : nat) : forall m m' g g',
  run_genetic_algo generations m g = Return (m', g') ->
  all_ingredients m' = all_ingredients m
  /\ length (recipes m')
     = match generations with
       | O => length (recipes m)
       | S _ => (length (recipes m) + length (recipes m) mod 2)%nat
       end
  /\ (forall r, r ∈ recipes m ->
                exists r', r' ∈ recipes m' /\ (get_fitness r <= get_fitness r')%nat).
Proof.
  induction generations as [|gens IH]; intros m m' g g' H; cbn [run_genetic_algo] in H.
  - unfold rret in H. simplify_eq. split; [done|]. split; [done|].
    intros r Hr. by exists r.
  - unfold rbind in H. destruct (genetic_algo m g) as [[m1 g1]|] eqn:Hg; [|done].
    pose proof (genetic_algo_returns_inv _ _ _ _ Hg) as (new & Hlen & Hrec & _ & Hall).
    assert (length (recipes m1) = (length (recipes m) + length (recipes m) mod 2)%nat)
      as Hsize.
    { rewrite Hrec, length_app, !fittest_half_length, Hlen.
      pose proof (Nat.div_mod_eq (length (recipes m)) 2).
      pose proof (Nat.mod_upper_bound (length (recipes m)) 2 ltac:(done)). lia. }
    apply IH in H as (Hall' & Hsize' & Hfit).
    split; [congruence|]. split.
    + rewrite Hsize'. destruct gens; [done|]. rewrite Hsize.
      by rewrite round_up_even, Nat.add_0_r.
    + intros r Hr.
      destruct (fittest_half_dominates _ _ Hr) as (r1 & Hr1 & Hle).
      destruct (Hfit r1) as (r' & Hr' & Hle').
      { rewrite Hrec. apply elem_of_app. by left. }
      exists r'. split; [done|lia].
Qed.

(** Over a whole run the inspiring set never changes, the best fitness
    never drops, and the population size is the initial one after no
    generation and the initial one rounded up to an even number after any
    positive number of generations. *)
Theorem run_genetic_algo_invariants (generations : nat) (m m' : RecipeManager)
    (g g' : rng) :
  run_genetic_algo generations m g = Return (m', g') ->
  all_ingredients m' = all_ingredients m
  /\ length (recipes m')
     = match generations with
       | O => length (recipes m)
       | S _ => (length (recipes m) + length (recipes m) mod 2)%nat
       end
  /\ (forall r, r ∈ recipes m ->
                exists r', r' ∈ recipes m' /\ (get_fitness r <= get_fitness r')%nat).
Proof. apply run_genetic_algo_inv. Qed.

Lemma run_genetic_algo_invariants_witness :
  exists m',
    value_of (run_genetic_algo 1 three_names (rng_of_list [1; 0; 1; 0; 0; 5]%N))
    = Return m'
    /\ all_ingredients m' = all_ingredients three_names
    /\ length (recipes m')
       = (length (recipes three_names) + length (recipes three_names) mod 2)%nat
    /\ (forall r, r ∈ recipes three_names ->
                  exists r', r' ∈ recipes m' /\ (get_fitness r <= get_fitness r')%nat).
Proof.
  destruct (run_genetic_algo 1 three_names (rng_of_list [1; 0; 1; 0; 0; 5]%N))
    as [[m' g']|e] eqn:H.
  - exists m'. split; [done|].
    exact (run_genetic_algo_invariants 1 three_names m' _ g' H).
  - vm_compute in H. discriminate H.
Defined.

(** ** Sorting *)

Lemma insert_by_filter {A} (key : A -> nat) (k : nat) (x : A) (l : list A) :
  filter (fun y => key y = k) (insert_by key x l)
  = filter (fun y => key y = k) (x :: l).
Proof.
  induction l as [|y l IH]; [done|]. simpl.
  destruct (decide (key x <= key y)%nat) as [|Hgt]; [done|].
  rewrite filter_cons, IH, !filter_cons.
  destruct (decide (key y = k)), (decide (key x = k)); try done. lia.
Qed.

(** [sorted] is a stable ascending sort: its result is a rearrangement of
    the list, ascending in the key, in which the elements of equal key keep
    the order they had. *)
Theorem sorted_is_a_stable_sort {A} (key : A -> nat) (l : list A) :
  sorted key l ≡ₚ l
  /\ ascending key (sorted key l)
  /\ forall k, filter (fun y => key y = k) (sorted key l)
               = filter (fun y => key y = k) l.
Proof.
  split; [apply sorted_perm|]. split; [apply sorted_ascending|].
  intros k. induction l as [|x l IH]; [done|]. simpl.
  by rewrite insert_by_filter, !filter_cons, IH.
Qed.

(** ** Writing the result *)

Lemma write_fittest_recipes_few (m : RecipeManager) :
  (length (recipes m) < 5)%nat ->
  exists files,
    write_fittest_recipes m = (files, Raise IndexError)
    /\ length files = length (recipes m).
Proof.
  intros Hlen. unfold write_fittest_recipes.
  rewrite sorted_length.
  replace (length (recipes m) - 5)%nat with 0%nat by lia. rewrite drop_0.
  rewrite <- (sorted_length get_fitness) in *.
  destruct (sorted get_fitness (recipes m)) as [|a [|b [|c [|d [|e l]]]]];
    simpl in *; try lia; eexists; by split.
Qed.

(** With fewer than five recipes [write_fittest_recipes] writes one file per
    recipe and then fails: [top_5[i]] raises [IndexError]. *)
Theorem write_fittest_recipes_needs_five (m : RecipeManager) :
  (length (recipes m) < 5)%nat ->
  exists files,
    write_fittest_recipes m = (files, Raise IndexError)
    /\ length files = length (recipes m).
Proof. apply write_fittest_recipes_few. Qed.

Lemma write_fittest_recipes_needs_five_witness :
  exists files,
    write_fittest_recipes three_names = (files, Raise IndexError)
    /\ length files = length (recipes three_names).
Proof. apply (write_fittest_recipes_needs_five three_names). simpl. lia. Defined.

(** With five recipes or more [write_fittest_recipes] returns after writing
    five files, rank_5 first and rank_1 last, for five recipes of the
    population in ascending fitness; no recipe of the population is fitter
    than the one written to rank_1. *)
Theorem write_fittest_recipes_ranks (m : RecipeManager) :
  (5 <= length (recipes m))%nat ->
  exists r5 r4 r3 r2 r1,
    write_fittest_recipes m
    = ([rank_file 0 r5; rank_file 1 r4; rank_file 2 r3; rank_file 3 r2; rank_file 4 r1],
       Return tt)
    /\ fst <$> [rank_file 0 r5; rank_file 1 r4; rank_file 2 r3; rank_file 3 r2;
                rank_file 4 r1]
       = ["fittest recipes/rank_5"; "fittest recipes/rank_4"; "fittest recipes/rank_3";
          "fittest recipes/rank_2"; "fittest recipes/rank_1"]
    /\ (get_fitness r5 <= get_fitness r4 <= get_fitness r3)%nat
    /\ (get_fitness r3 <= get_fitness r2 <= get_fitness r1)%nat
    /\ Forall (fun r => r ∈ recipes m) [r5; r4; r3; r2; r1]
    /\ forall r, r ∈ recipes m -> (get_fitness r <= get_fitness r1)%nat.
Proof.
  intros Hlen. unfold write_fittest_recipes.
  pose proof (sorted_ascending get_fitness (recipes m)) as Hasc.
  pose proof (sorted_perm get_fitness (recipes m)) as Hperm.
  pose proof (sorted_length get_fitness (recipes m)) as Hsl.
  set (srt := sorted get_fitness (recipes m)) in *.
  set (k := (length srt - 5)%nat).
  assert (length (drop k srt) = 5%nat) as Hd by (rewrite length_drop; lia).
  destruct (drop k srt) as [|r5 [|r4 [|r3 [|r2 [|r1 [|x l]]]]]] eqn:Htop;
    try discriminate Hd.
  assert (forall i r, [r5; r4; r3; r2; r1] !! i = Some r -> srt !! (k + i)%nat = Some r)
    as Hlook.
  { intros i r Hi. by rewrite <- lookup_drop, Htop. }
  exists r5, r4, r3, r2, r1. split; [done|]. split; [done|].
  pose proof (Hlook 0%nat r5 eq_refl) as H5. pose proof (Hlook 1%nat r4 eq_refl) as H4.
  pose proof (Hlook 2%nat r3 eq_refl) as H3. pose proof (Hlook 3%nat r2 eq_refl) as H2.
  pose proof (Hlook 4%nat r1 eq_refl) as H1.
  split; [split; eapply Hasc; [|done|done| |done|done]; lia|].
  split; [split; eapply Hasc; [|done|done| |done|done]; lia|].
  split.
  - repeat constructor; rewrite <- Hperm; by eapply list_elem_of_lookup_2.
  - intros r Hr. rewrite <- Hperm in Hr. apply list_elem_of_lookup in Hr as [j Hj].
    pose proof (lookup_lt_Some _ _ _ Hj).
    eapply (Hasc j (k + 4)%nat); [|done|done]. unfold k. lia.
Qed.

Lemma write_fittest_recipes_ranks_witness :
  exists r5 r4 r3 r2 r1,
    write_fittest_recipes
      (with_recipes three_names
         [sized "a" 2; sized "b" 1; sized "c" 4; sized "d" 3; sized "e" 2; sized "f" 0])
    = ([rank_file 0 r5; rank_file 1 r4; rank_file 2 r3; rank_file 3 r2; rank_file 4 r1],
       Return tt)
    /\ fst <$> [rank_file 0 r5; rank_file 1 r4; rank_file 2 r3; rank_file 3 r2;
                rank_file 4 r1]
       = ["fittest recipes/rank_5"; "fittest recipes/rank_4"; "fittest recipes/rank_3";
          "fittest recipes/rank_2"; "fittest recipes/rank_1"]
    /\ (get_fitness r5 <= get_fitness r4 <= get_fitness r3)%nat
    /\ (get_fitness r3 <= get_fitness r2 <= get_fitness r1)%nat
    /\ Forall (fun r => r ∈ recipes
                 (with_recipes three_names
                    [sized "a" 2; sized "b" 1; sized "c" 4; sized "d" 3; sized "e" 2;
                     sized "f" 0]))
              [r5; r4; r3; r2; r1]
    /\ forall r, r ∈ recipes
                   (with_recipes three_names
                      [sized "a" 2; sized "b" 1; sized "c" 4; sized "d" 3; sized "e" 2;
                       sized "f" 0]) ->
                 (get_fitness r <= get_fitness r1)%nat.
Proof.
  apply (write_fittest_recipes_ranks
           (with_recipes three_names
              [sized "a" 2; sized "b" 1; sized "c" 4; sized "d" 3; sized "e" 2;
               sized "f" 0])).
  simpl. lia.
Defined.

(** ** Loading the seed recipes and the whole run *)

Lemma parse_files_inv (files : list (list string)) : forall m m',
  parse_files files m = Return m' ->
  exists rs,
    recipes m' = recipes m ++ rs
    /\ length rs = length files
    /\ num_new_recipes m' = (num_new_recipes m + length files)%nat
    /\ all_ingredients m' = all_ingredients m
    /\ forall k f r, files !! k = Some f -> rs !! k = Some r ->
                     Recipe_init (num_new_recipes m + k) f = Return r.
Proof.
  induction files as [|f files IH]; simpl; intros m m' H.
  - simplify_eq. exists []. rewrite app_nil_r. repeat split; [lia|].
    intros k f r Hk. by rewrite lookup_nil in Hk.
  - destruct (Recipe_init (num_new_recipes m) f) as [r0|] eqn:Hr0; [|done]. simpl in H.
    apply IH in H as (rs & Hrec & Hlen & Hnum & Hall & Hk). simpl in *.
    exists (r0 :: rs). rewrite Hrec, <- app_assoc. simpl.
    repeat split; [lia|lia|done|].
    intros [|k] f' r' Hf Hr; simpl in *; simplify_eq.
    + by rewrite Nat.add_0_r.
    + replace (num_new_recipes m + S k)%nat with (S (num_new_recipes m + k)) by lia.
      by eapply Hk.
Qed.

(** A returned [parse_files] has appended one recipe per file, in the order
    of the files, each constructed from its file's lines under the number
    the counter had then; the counter has advanced by the number of files
    and the inspiring set is untouched. *)
Theorem parse_files_appends_one_recipe_per_file (files : list (list string))
    (m m' : RecipeManager) :
  parse_files files m = Return m' ->
  exists rs,
    recipes m' = recipes m ++ rs
    /\ length rs = length files
    /\ num_new_recipes m' = (num_new_recipes m + length files)%nat
    /\ all_ingredients m' = all_ingredients m
    /\ forall k f r, files !! k = Some f -> rs !! k = Some r ->
                     Recipe_init (num_new_recipes m + k) f = Return r.
Proof. apply parse_files_inv. Qed.

Lemma parse_files_appends_one_recipe_per_file_witness :
  exists rs,
    recipes {| recipes := [ {| recipe_name := "recipe_0"; ingredients := [ingr "Gin" 3] |};
                            {| recipe_name := "recipe_1"; ingredients := [ingr "Rum" 2] |} ];
               num_new_recipes := 2; all_ingredients := ∅ |}
    = recipes RecipeManager_init ++ rs
    /\ length rs = length [["1 oz Gin"; "2 oz Gin"]; ["2 oz Rum"]]
    /\ num_new_recipes
         {| recipes := [ {| recipe_name := "recipe_0"; ingredients := [ingr "Gin" 3] |};
                         {| recipe_name := "recipe_1"; ingredients := [ingr "Rum" 2] |} ];
            num_new_recipes := 2; all_ingredients := ∅ |}
       = (num_new_recipes RecipeManager_init
          + length [["1 oz Gin"; "2 oz Gin"]; ["2 oz Rum"]])%nat
    /\ all_ingredients
         {| recipes := [ {| recipe_name := "recipe_0"; ingredients := [ingr "Gin" 3] |};
                         {| recipe_name := "recipe_1"; ingredients := [ingr "Rum" 2] |} ];
            num_new_recipes := 2; all_ingredients := ∅ |}
       = all_ingredients RecipeManager_init
    /\ forall k f r,
         [["1 oz Gin"; "2 oz Gin"]; ["2 oz Rum"]] !! k = Some f -> rs !! k = Some r ->
         Recipe_init (num_new_recipes RecipeManager_init + k) f = Return r.
Proof.
  apply (parse_files_appends_one_recipe_per_file
           [["1 oz Gin"; "2 oz Gin"]; ["2 oz Rum"]] RecipeManager_init).
  decide_eq.
Defined.

(** A run seeded with fewer than five files never ends normally: if loading
    and the generations go through, the population still has fewer than five
    recipes and writing the result raises. *)
Theorem main_needs_five_seed_recipes (generations : nat) (files : list (list string))
    (g : rng) :
  (length files < 5)%nat ->
  exists written e, main generations files g = (written, Raise e).
Proof.
  intros Hlen. unfold main.
  destruct (parse_files files RecipeManager_init) as [m|e] eqn:Hp; [|by eexists _, _].
  apply parse_files_inv in Hp as (rs & Hrec & Hrs & _).
  simpl in Hrec.
  destruct (run_genetic_algo generations (get_unique_ingredients m) g)
    as [[m' g']|e] eqn:Hrun; [|by eexists _, _].
  apply run_genetic_algo_inv in Hrun as (_ & Hsize & _).
  assert (length (recipes (get_unique_ingredients m)) = length files) as Hn.
  { simpl. by rewrite Hrec. }
  rewrite Hn in Hsize.
  destruct (write_fittest_recipes_few m') as (written & Hw & _).
  { rewrite Hsize. clear -Hlen. destruct generations; [lia|].
    revert Hlen. generalize (length files). intros n Hlen.
    do 5 (destruct n as [|n]; [vm_compute; lia|]). lia. }
  by exists written, IndexError.
Qed.

Lemma main_needs_five_seed_recipes_witness :
  exists written e,
    main 0 [["1 oz Gin"; "2 oz Gin"]; ["2 oz Rum"]] (rng_of_list []) = (written, Raise e).
Proof.
  apply (main_needs_five_seed_recipes 0 [["1 oz Gin"; "2 oz Gin"]; ["2 oz Rum"]]
           (rng_of_list [])).
  simpl. lia.
Defined.

(** ** Pair selection on a regular population *)

Lemma foldl_Qcplus (p : list Qc) : forall acc, foldl Qcplus acc p = acc + sumr p.
Proof.
  induction p as [|x p IH]; intros acc; simpl.
  - ring.
  - rewrite IH. ring.
Qed.

Lemma sumr_nonneg (p : list Qc) : Forall (fun x => Q2Qc 0 <= x) p -> Q2Qc 0 <= sumr p.
Proof.
  induction 1 as [|x p Hx _ IH]; simpl; [done|].
  replace (Q2Qc 0) with (Q2Qc 0 + Q2Qc 0) by ring.
  by apply Qcplus_le_compat.
Qed.

Lemma sumr_lookup_le (p : list Qc) : forall j x,
  Forall (fun x => Q2Qc 0 <= x) p -> p !! j = Some x -> x <= sumr p.
Proof.
  induction p as [|y p IH]; intros j x Hp Hj; [done|].
  apply list.Forall_cons in Hp as [Hy Hp]. simpl.
  destruct j as [|j]; simpl in Hj; simplify_eq.
  - replace x with (x + Q2Qc 0) at 1 by ring.
    apply Qcplus_le_compat; [apply Qcle_refl|by apply sumr_nonneg].
  - replace x with (Q2Qc 0 + x) by ring.
    apply Qcplus_le_compat; [done|by eapply IH].
Qed.

Lemma cumsum_ge (p : list Qc) : forall acc,
  Forall (fun x => Q2Qc 0 <= x) p -> Forall (fun c => acc <= c) (cumsum acc p).
Proof.
  induction p as [|x p IH]; intros acc Hp; simpl; [done|].
  apply list.Forall_cons in Hp as [Hx Hp].
  assert (acc <= acc + x) as Hle.
  { replace acc with (acc + Q2Qc 0) at 1 by ring.
    apply Qcplus_le_compat; [apply Qcle_refl|done]. }
  constructor; [done|].
  eapply list.Forall_impl; [by apply IH|]. simpl. intros c Hc.
  by eapply Qcle_trans.
Qed.

Lemma last_cumsum (p : list Qc) : forall acc d,
  p <> [] -> List.last (cumsum acc p) d = acc + sumr p.
Proof.
  induction p as [|x p IH]; intros acc d Hp; [done|].
  destruct p as [|y p].
  - simpl. ring.
  - change (List.last (cumsum acc (x :: y :: p)) d)
      with (List.last (cumsum (acc + x) (y :: p)) d).
    rewrite IH by done. simpl. ring.
Qed.

Lemma filter_none {A} (P : A -> Prop) `{forall x, Decision (P x)} (l : list A) :
  Forall (fun c => ~ P c) l -> filter P l = [].
Proof.
  induction 1 as [|c l Hc _ IH]; [done|].
  rewrite filter_cons. by destruct (decide (P c)).
Qed.

Lemma searchsorted_crossing (inv u : Qc) (p : list Qc) :
  Q2Qc 0 < inv ->
  forall acc,
    Forall (fun x => Q2Qc 0 <= x) p ->
    acc * inv <= u -> u < (acc + sumr p) * inv ->
    exists x, p !! searchsorted_right ((fun c => c * inv) <$> cumsum acc p) u = Some x
              /\ Q2Qc 0 < x.
Proof.
  intros Hinv. induction p as [|x p IH]; intros acc Hp Hlo Hhi.
  - simpl in Hhi. exfalso. replace (acc + Q2Qc 0) with acc in Hhi by ring.
    by apply (Qcle_not_lt _ _ Hlo).
  - apply list.Forall_cons in Hp as [Hx Hp].
    unfold searchsorted_right. cbn [cumsum]. rewrite fmap_cons, filter_cons.
    destruct (decide ((acc + x) * inv <= u)) as [Hle|Hgt].
    + cbn [length]. apply (IH (acc + x)); [done|done|].
      simpl in Hhi. by replace (acc + x + sumr p) with (acc + (x + sumr p)) by ring.
    + apply Qcnot_le_lt in Hgt.
      rewrite filter_none.
      2:{ apply Forall_fmap. eapply list.Forall_impl; [by apply (cumsum_ge p (acc + x))|].
          simpl. intros c Hc. apply Qclt_not_le.
          eapply Qclt_le_trans; [exact Hgt|].
          by apply Qcmult_le_mono_pos_r. }
      exists x. split; [done|].
      assert (acc * inv < (acc + x) * inv) as Hlt by (by eapply Qcle_lt_trans).
      apply Qcmult_lt_mono_pos_r in Hlt; [|done].
      apply (Qcplus_lt_mono_l _ _ acc). by replace (acc + Q2Qc 0) with acc by ring.
Qed.

Lemma weighted_index_positive (p : list Qc) (u : Qc) :
  Forall (fun x => Q2Qc 0 <= x) p -> Q2Qc 0 < sumr p ->
  Q2Qc 0 <= u -> u < Q2Qc 1 ->
  exists x, p !! weighted_index p u = Some x /\ Q2Qc 0 < x.
Proof.
  intros Hp Hsum Hu0 Hu1. unfold weighted_index.
  assert (p <> []) as Hne by (intros ->; by apply Qclt_not_eq in Hsum).
  rewrite last_cumsum by done.
  replace (Q2Qc 0 + sumr p) with (sumr p) by ring.
  assert (Q2Qc 0 < / sumr p) as Hinv by (by apply Qcinv_pos).
  apply (searchsorted_crossing (/ sumr p) u p Hinv (Q2Qc 0)); [done| |].
  - by replace (Q2Qc 0 * / sumr p) with (Q2Qc 0) by ring.
  - replace ((Q2Qc 0 + sumr p) * / sumr p) with (Q2Qc 1); [done|].
    field. intros E. rewrite E in Hsum. by apply Qclt_not_eq in Hsum.
Qed.

Lemma filter_two_other {A} (P : A -> Prop) `{forall x, Decision (P x)} (l : list A) :
  (2 <= length (filter P l))%nat ->
  forall i, exists j x, j <> i /\ l !! j = Some x /\ P x.
Proof.
  induction l as [|y l IH]; intros Hlen i; [simpl in Hlen; lia|].
  rewrite filter_cons in Hlen.
  destruct i as [|i].
  - assert (1 <= length (filter P l))%nat as Hl
        by (destruct (decide (P y)); simpl in Hlen; lia).
    destruct (filter P l) as [|x l'] eqn:Hf; [simpl in Hl; lia|].
    assert (x ∈ filter P l) as Hx by (rewrite Hf; by left).
    apply list_elem_of_filter in Hx as [HPx Hx].
    apply list_elem_of_lookup in Hx as [j Hj].
    by exists (S j), x.
  - destruct (decide (P y)) as [HPy|HPy].
    + by exists 0%nat, y.
    + destruct (IH Hlen i) as (j & x & Hji & Hj & HPx).
      exists (S j), x. split; [lia|done].
Qed.

Lemma lookup_or_raise_some {A} (l : list A) (i : nat) (x : A) (g : rng) :
  l !! i = Some x -> lookup_or_raise l i g = Return (x, g).
Proof. unfold lookup_or_raise. by intros ->. Qed.

Lemma np_random_choice_pair_returns {A} (a : list A) (p : list Qc) (g : rng) :
  length p = length a ->
  Forall (fun x => Q2Qc 0 <= x) p ->
  foldl Qcplus (Q2Qc 0) p = Q2Qc 1 ->
  (2 <= length (filter (fun x => (Q2Qc 0 < x)%Qc) p))%nat ->
  exists i j x y g',
    np_random_choice_pair a p g = Return ((x, y), g')
    /\ i <> j /\ a !! i = Some x /\ a !! j = Some y
    /\ (exists w, p !! i = Some w /\ Q2Qc 0 < w)
    /\ (exists w, p !! j = Some w /\ Q2Qc 0 < w).
Proof.
  intros Hlen Hnn Hsum Htwo.
  pose proof (length_filter (fun x => (Q2Qc 0 < x)%Qc) p) as Hfl.
  assert (sumr p = Q2Qc 1) as Hs.
  { rewrite foldl_Qcplus in Hsum. rewrite <- Hsum. ring. }
  assert (forall q u, Forall (fun x => Q2Qc 0 <= x) q -> length q = length a ->
                      Q2Qc 0 < sumr q -> Q2Qc 0 <= u -> u < Q2Qc 1 ->
                      exists w x, q !! weighted_index q u = Some w /\ Q2Qc 0 < w
                                  /\ a !! weighted_index q u = Some x) as Hpick.
  { intros q u Hq Hql Hqs Hu0 Hu1.
    destruct (weighted_index_positive q u Hq Hqs Hu0 Hu1) as (w & Hw & Hpos).
    destruct (lookup_lt_is_Some_2 a (weighted_index q u)) as [x Hx].
    { rewrite <- Hql. by eapply lookup_lt_Some. }
    by exists w, x. }
  unfold np_random_choice_pair.
  destruct (decide (length a = 0)%nat); [lia|].
  destruct (decide (length p <> length a)); [done|].
  destruct (decide (Exists _ p)) as [Hex|_].
  { exfalso. apply list.Exists_exists in Hex as (x & Hx & Hneg).
    rewrite list.Forall_forall in Hnn. by apply (Qclt_not_le _ _ Hneg), Hnn. }
  destruct (decide (foldl Qcplus (Q2Qc 0) p <> Q2Qc 1)); [done|].
  destruct (decide (length a < 2)%nat); [lia|].
  destruct (decide (length (filter _ p) < 2)%nat); [lia|].
  destruct (random_random_range g) as (u1 & Hr1 & Hu10 & Hu11).
  destruct (random_random_range (rng_tail g)) as (u2 & Hr2 & Hu20 & Hu21).
  destruct (random_random_range (rng_tail (rng_tail g))) as (u3 & Hr3 & Hu30 & Hu31).
  assert (Q2Qc 0 < sumr p) as Hsp by (by rewrite Hs).
  destruct (Hpick p u1 Hnn Hlen Hsp Hu10 Hu11) as (w1 & x1 & Hw1 & Hpos1 & Hx1).
  destruct (Hpick p u2 Hnn Hlen Hsp Hu20 Hu21) as (w2 & x2 & Hw2 & Hpos2 & Hx2).
  unfold rbind at 1. rewrite Hr1. unfold rbind at 1. rewrite Hr2.
  unfold rbind at 1. rewrite (lookup_or_raise_some _ _ _ _ Hx1).
  destruct (decide (weighted_index p u1 = weighted_index p u2)) as [Heq|Hne].
  - set (i1 := weighted_index p u1) in *.
    set (p' := <[i1 := Q2Qc 0]> p).
    assert (Forall (fun x => Q2Qc 0 <= x) p') as Hnn'.
    { apply Forall_insert; [done|]. apply Qcle_refl. }
    assert (Q2Qc 0 < sumr p') as Hsp'.
    { destruct (filter_two_other _ p Htwo i1) as (j & w & Hji & Hj & Hw).
      eapply Qclt_le_trans; [exact Hw|].
      apply (sumr_lookup_le p' j); [done|]. unfold p'.
      by rewrite list_lookup_insert_ne. }
    destruct (Hpick p' u3 Hnn' ltac:(unfold p'; by rewrite length_insert) Hsp' Hu30 Hu31)
      as (w3 & x3 & Hw3 & Hpos3 & Hx3).
    assert (weighted_index p' u3 <> i1) as Hne3.
    { intros E. rewrite E in Hw3. unfold p' in Hw3.
      rewrite list_lookup_insert_eq in Hw3 by (by eapply lookup_lt_Some).
      simplify_eq. }
    unfold rbind at 1. rewrite Hr3. unfold rbind.
    fold p'. rewrite (lookup_or_raise_some _ _ _ _ Hx3).
    exists i1, (weighted_index p' u3), x1, x3. eexists.
    split; [reflexivity|]. split; [done|]. split; [done|]. split; [done|].
    split; [by exists w1|]. exists w3. split; [|done].
    unfold p' in Hw3. by rewrite list_lookup_insert_ne in Hw3.
  - unfold rbind. rewrite (lookup_or_raise_some _ _ _ _ Hx2).
    exists (weighted_index p u1), (weighted_index p u2), x1, x2. eexists.
    split; [reflexivity|]. split; [done|]. split; [done|]. split; [done|].
    split; [by exists w1|by exists w2].
Qed.

Lemma Qc_of_nat_positive (n : nat) : Q2Qc 0 < Qc_of_nat n <-> (0 < n)%nat.
Proof.
  unfold Qc_of_nat, Qclt, Q2Qc. cbn [this]. rewrite !Qred_correct.
  unfold Qlt. simpl. lia.
Qed.

Lemma Qc_of_nat_add (a b : nat) : Qc_of_nat (a + b) = Qc_of_nat a + Qc_of_nat b.
Proof.
  apply Qc_is_canon. unfold Qc_of_nat, Qcplus, Q2Qc. cbn [this].
  rewrite !Qred_correct, Nat2Z.inj_add. unfold Qeq. simpl. lia.
Qed.

Lemma foldl_add_nat (l : list nat) : forall acc,
  foldl Nat.add acc l = (acc + foldr Nat.add 0 l)%nat.
Proof.
  induction l as [|x l IH]; intros acc; simpl; [lia|]. rewrite IH. lia.
Qed.

Lemma sumr_scaled (inv : Qc) (fits : list nat) :
  sumr ((fun fit => Qc_of_nat fit * inv) <$> fits)
  = Qc_of_nat (foldr Nat.add 0 fits)%nat * inv.
Proof.
  induction fits as [|f fits IH]; csimpl.
  - replace (Qc_of_nat 0) with (Q2Qc 0) by (by apply Qc_is_canon). ring.
  - rewrite IH, Qc_of_nat_add. ring.
Qed.

Lemma scaled_positive (inv : Qc) (n : nat) :
  Q2Qc 0 < inv -> (Q2Qc 0 < Qc_of_nat n * inv <-> (0 < n)%nat).
Proof.
  intros Hinv. rewrite <- Qc_of_nat_positive.
  replace (Q2Qc 0) with (Q2Qc 0 * inv) at 1 by ring.
  symmetry. by apply Qcmult_lt_mono_pos_r.
Qed.

Lemma scaled_nonneg (inv : Qc) (n : nat) :
  Q2Qc 0 < inv -> Q2Qc 0 <= Qc_of_nat n * inv.
Proof.
  intros Hinv. destruct n as [|n].
  - replace (Qc_of_nat 0) with (Q2Qc 0) by (by apply Qc_is_canon).
    replace (Q2Qc 0 * inv) with (Q2Qc 0) by ring. apply Qcle_refl.
  - apply Qclt_le_weak, scaled_positive; [done|lia].
Qed.

Lemma length_filter_fmap {A B} (f : A -> B) (P : B -> Prop) (Q : A -> Prop)
    `{forall x, Decision (P x)} `{forall x, Decision (Q x)} (l : list A) :
  (forall x, P (f x) <-> Q x) ->
  length (filter P (f <$> l)) = length (filter Q l).
Proof.
  intros HPQ. induction l as [|x l IH]; [done|].
  rewrite fmap_cons, !filter_cons.
  destruct (decide (P (f x))) as [HP|HP], (decide (Q x)) as [HQ|HQ]; simpl;
    rewrite ?IH; try done; exfalso; by apply HPQ in HP || (apply HP, HPQ).
Qed.

(** When at least two recipes have an ingredient, pair selection returns two
    recipes from two different positions of the population, and neither is
    empty: a weight of zero is never drawn and the first choice is not drawn
    again. *)
Theorem select_pair_returns_two_nonempty_parents (rs : list Recipe) (g : rng) :
  (2 <= length (filter (fun r => (0 < get_fitness r)%nat) rs))%nat ->
  exists i j r1 r2 g',
    select_pair rs g = Return ((r1, r2), g')
    /\ i <> j /\ rs !! i = Some r1 /\ rs !! j = Some r2
    /\ (0 < get_fitness r1)%nat /\ (0 < get_fitness r2)%nat.
Proof.
  intros Htwo. unfold select_pair, rbind, rlift.
  set (fits := get_fitness <$> rs).
  assert (0 < foldr Nat.add 0 fits)%nat as Hsum.
  { destruct (filter_two_other _ rs Htwo 0%nat) as (j & r & _ & Hj & Hr).
    assert (fits !! j = Some (get_fitness r)) as Hf
        by (unfold fits; by rewrite list_lookup_fmap, Hj).
    clear -Hf Hr. revert j Hf. induction fits as [|f fits IH]; intros j Hf; [done|].
    destruct j as [|j]; simpl in *; simplify_eq; [lia|].
    specialize (IH j Hf). lia. }
  assert (sum_nat fits = foldr Nat.add 0 fits)%nat as Hsn.
  { unfold sum_nat. by rewrite foldl_add_nat. }
  rewrite probabilities_returns by lia.
  set (total := sum_nat fits) in *.
  assert (Q2Qc 0 < / Qc_of_nat total) as Hinv.
  { apply Qcinv_pos, Qc_of_nat_positive. lia. }
  set (p := (fun fit => Qc_of_nat fit / Qc_of_nat total) <$> fits).
  destruct (np_random_choice_pair_returns rs p g)
    as (i & j & r1 & r2 & g' & Hrun & Hij & Hi & Hj & (wi & Hwi & Hpi) & (wj & Hwj & Hpj)).
  - unfold p, fits. by rewrite !length_fmap.
  - unfold p. apply Forall_fmap, Forall_true. intros f. by apply scaled_nonneg.
  - rewrite foldl_Qcplus. unfold p.
    change (fun fit => Qc_of_nat fit / Qc_of_nat total)
      with (fun fit => Qc_of_nat fit * / Qc_of_nat total).
    rewrite sumr_scaled, <- Hsn. fold total.
    replace (Q2Qc 0 + Qc_of_nat total * / Qc_of_nat total) with (Qc_of_nat total * / Qc_of_nat total)
      by ring.
    apply Qcmult_inv_r. intros E.
    assert (Q2Qc 0 < Qc_of_nat total) as HS by (apply Qc_of_nat_positive; lia).
    rewrite E in HS. by apply Qclt_not_eq in HS.
  - unfold p, fits. rewrite <- list_fmap_compose.
    erewrite length_filter_fmap; [exact Htwo|].
    intros r. simpl. by apply scaled_positive.
  - exists i, j, r1, r2, g'. split; [exact Hrun|]. split; [done|].
    split; [done|]. split; [done|].
    unfold p, fits in Hwi, Hwj. rewrite <- list_fmap_compose in Hwi, Hwj.
    rewrite list_lookup_fmap in Hwi, Hwj. rewrite Hi in Hwi. rewrite Hj in Hwj.
    simpl in Hwi, Hwj. simplify_eq.
    unfold Qcdiv in Hpi, Hpj.
    split; [by apply (scaled_positive _ _ Hinv) in Hpi|by apply (scaled_positive _ _ Hinv) in Hpj].
Qed.

Lemma select_pair_returns_two_nonempty_parents_witness :
  exists i j r1 r2 g',
    select_pair [thirds_a; sized "empty" 0; thirds_b] (rng_of_list [5; 5; 7]%N)
    = Return ((r1, r2), g')
    /\ i <> j
    /\ [thirds_a; sized "empty" 0; thirds_b] !! i = Some r1
    /\ [thirds_a; sized "empty" 0; thirds_b] !! j = Some r2
    /\ (0 < get_fitness r1)%nat /\ (0 < get_fitness r2)%nat.
Proof.
  apply (select_pair_returns_two_nonempty_parents
           [thirds_a; sized "empty" 0; thirds_b] (rng_of_list [5; 5; 7]%N)).
  vm_compute. lia.
Defined.
